(** * Verification of the tensor helpers of [common/util.py]

    The module is a set of independent helpers around a training loop:
    [compute_bow], [check_dispersion], [sample],
    [compute_background_log_frequency], [split_instances], [one_hot],
    [log_standard_categorical], [schedule] and [interpolate].

    Conventions of the embedding.
    - Integer tensors hold [Z]; where the rank of a tensor changes
      ([squeeze], [unsqueeze], indexing) it is a [tensor], a shape with the
      entries in row-major order, elsewhere a list of rows.
      Floating-point tensors are read in exact real arithmetic: their
      entries are of type [R], rounding, overflow and the width of the
      format are not represented.
    - A Python call either returns, raises or has not returned yet when the
      fuel of a [while] loop ran out: [outcome].
    - Code that touches state outside its arguments (numpy's global
      generator, torch's generator, the file system, the storage behind a
      tensor) is written in state-passing style: [stateful]. *)

From Stdlib Require Import Reals Lra Lia ZArith List String.
From stdpp Require Import gmap strings list.

(** ** Outcomes of a call *)

Inductive exn : Type :=
  | KeyError
  | IndexError
  | TypeError
  | ValueError
  | RuntimeError
  | ZeroDivisionError
  | UnboundLocalError
  | FileNotFoundError.

Inductive outcome (A : Type) : Type :=
  | Ok (a : A)
  | Raise (e : exn)
  | Timeout.

Arguments Ok {A} a.
Arguments Raise {A} e.
Arguments Timeout {A}.

Definition obind {A B : Type} (m : outcome A) (f : A -> outcome B) : outcome B :=
  match m with
  | Ok a => f a
  | Raise e => Raise e
  | Timeout => Timeout
  end.

Notation "'let*' x := m 'in' k" := (obind m (fun x => k))
  (at level 10, x pattern, m at level 100, k at level 200, only parsing).

(** The loop [for x in xs: ys.append(f(x))] where [f] may raise. *)
Fixpoint omap {A B : Type} (f : A -> outcome B) (xs : list A) : outcome (list B) :=
  match xs with
  | [] => Ok []
  | x :: xs' =>
      let* y := f x in
      let* ys := omap f xs' in
      Ok (y :: ys)
  end.

(** State-passing computations: the state reached is kept when the call
    raises, as the effects of a Python call are. *)
Definition stateful (S A : Type) : Type := S -> outcome A * S.

Definition sret {S A : Type} (a : A) : stateful S A := fun s => (Ok a, s).

Definition sraise {S A : Type} (e : exn) : stateful S A := fun s => (Raise e, s).

Definition sbind {S A B : Type} (m : stateful S A) (f : A -> stateful S B)
  : stateful S B :=
  fun s =>
    match m s with
    | (Ok a, s') => f a s'
    | (Raise e, s') => (Raise e, s')
    | (Timeout, s') => (Timeout, s')
    end.

(** A step that touches no state. *)
Definition slift {S A : Type} (m : outcome A) : stateful S A := fun s => (m, s).

Notation "x <- m ;; k" := (sbind m (fun x => k))
  (at level 100, m at next level, right associativity, only parsing).

(** ** [schedule] *)

(** [batch_num] is the batch counter of the training loop, an integer;
    [/] is Python's true division. *)
Definition schedule (batch_num : Z) (anneal_type : string) : R :=
  if (anneal_type =? "linear")%string then
    Rmin 1 (IZR batch_num / 2500)
  else if (anneal_type =? "sigmoid")%string then
    (1 / (1 + exp (- 0.0025 * (IZR batch_num - 2500))))%R
  else if (anneal_type =? "constant")%string then
    1%R
  else if (anneal_type =? "reverse_sigmoid")%string then
    (1 / (1 + exp (0.0025 * (IZR batch_num - 2500))))%R
  else
    0.01%R.

(** ** [interpolate] *)

(** [enumerate(xs)]. *)
Definition enumerate {A : Type} (xs : list A) : list (nat * A) :=
  zip (seq 0 (length xs)) xs.

(** [numpy.linspace(start, stop, num)] with the default [endpoint=True],
    for [num >= 0]: the samples are [arange(num) * step + start] with
    [step = (stop - start) / (num - 1)], and the last one is then
    overwritten by [stop].  numpy multiplies in another order when the
    step is zero; both orders are kept. *)
Definition linspace (start stop : R) (num : nat) : list R :=
  let div := (num - 1)%nat in
  let y := map INR (seq 0 num) in
  let delta := (stop - start)%R in
  let y :=
    if (0 <? div)%nat then
      let step := (delta / INR div)%R in
      if Req_dec_T step 0 then map (fun i => (i / INR div * delta)%R) y
      else map (fun i => (i * step)%R) y
    else map (fun i => (i * delta)%R) y in
  let y := map (fun v => (v + start)%R) y in
  if (1 <? num)%nat then <[(num - 1)%nat := stop]> y else y.

(** [m.T] for an array [m] of shape [(length m, ncols)]; the number of
    columns is passed along because a nested list with no row has lost it. *)
Definition transpose (ncols : nat) (m : list (list R)) : list (list R) :=
  map (fun j => map (fun row => nth j row 0%R) m) (seq 0 ncols).

(** [np.zeros] refuses a negative dimension; every row gets its [linspace]
    by an indexed store, [zip] stops at the shorter of [start] and
    [end]. *)
Definition interpolate (start end_ : list R) (steps : Z)
  : outcome (list (list R)) :=
  if (steps + 2 <? 0)%Z then Raise ValueError
  else
    let num := Z.to_nat (steps + 2) in
    let interpolation := replicate (length start) (replicate num 0%R) in
    let interpolation :=
      fold_left
        (fun acc '(dim, (s, e)) => <[dim := linspace s e num]> acc)
        (enumerate (zip start end_)) interpolation in
    Ok (transpose num interpolation).

(** ** [one_hot] and [log_standard_categorical] *)

(** [torch.arange(n)]. *)
Definition arange (n : nat) : list Z := map Z.of_nat (seq 0 n).

(** [(idxs.unsqueeze(-1) == torch.arange(new_dim_size)).float()] for a
    vector of indices: one row per index. *)
Definition one_hot (idxs : list Z) (new_dim_size : nat) : list (list R) :=
  map (fun i => map (fun j => if (i =? j)%Z then 1%R else 0%R)
                    (arange new_dim_size)) idxs.

Definition sum_R (xs : list R) : R := foldr Rplus 0%R xs.

(** [torch.nn.functional.softmax(x, dim=-1)] on the last dimension. *)
Definition softmax (xs : list R) : list R :=
  let z := sum_R (map exp xs) in
  map (fun x => (exp x / z)%R) xs.

Definition ones_like (p : list R) : list R := replicate (length p) 1%R.

(** The function on the last dimension of [p]; leading dimensions are
    mapped over by [softmax] and [sum] with [dim=-1]. *)
Definition log_standard_categorical (p : list R) : R :=
  let prior := softmax (ones_like p) in
  sum_R (zip_with Rmult p (map (fun q => ln (q + 1e-8)) prior)).

(** The cross entropy between two categorical distributions,
    [H(p, q) = - sum_i p_i * log(q_i)].  It is not part of the code: the
    docstring of [log_standard_categorical] names it as the result, for
    [q] the uniform distribution, and the function is compared with it. *)
Definition cross_entropy (p q : list R) : R :=
  (- sum_R (zip_with Rmult p (map ln q)))%R.

(** A one-hot vector: one entry is 1, the others are 0. *)
Definition is_one_hot (p : list R) : Prop :=
  exists i, p !! i = Some 1%R /\
            forall j, j <> i -> (j < length p)%nat -> p !! j = Some 0%R.

(** ** [compute_bow] *)

(** [allennlp.nn.util.get_text_field_mask] on a batch of token indices of
    rank 2, [(tokens != 0).long()]: index 0 is the padding. *)
Definition get_text_field_mask (tokens : list (list Z)) : list (list Z) :=
  map (map (fun t => if (t =? 0)%Z then 0%Z else 1%Z)) tokens.

(** [x.byte()]: the value as an unsigned 8-bit integer. *)
Definition byte (x : Z) : Z := (x mod 256)%Z.

(** A mask of unsigned bytes that holds no other value than 0 and 1. *)
Definition binary_mask (mask : list Z) : bool :=
  forallb (fun m => (m =? 0)%Z || (m =? 1)%Z) mask.

(** The entries of [input] at the positions where [mask] is set; it runs
    on masks of 0 and 1 only, see [masked_select]. *)
Fixpoint masked_pick {A : Type} (input : list A) (mask : list Z) : list A :=
  match input, mask with
  | x :: input', m :: mask' =>
      if (m =? 0)%Z then masked_pick input' mask'
      else x :: masked_pick input' mask'
  | _, _ => []
  end.

(** The selection once the shapes agree: a byte of the mask other than
    0 and 1 is refused ("Mask tensor can take 0 and 1 values only"). *)
Definition select_by_mask {A : Type} (input : list A) (mask : list Z)
  : outcome (list A) :=
  if binary_mask mask then Ok (masked_pick input mask)
  else Raise RuntimeError.

(** [torch.masked_select(input, mask)] on vectors with a mask of unsigned
    bytes: the shapes are broadcast against each other, a vector of one
    entry stretches to the length of the other; other lengths that differ
    are refused, and so is a mask that holds a byte other than 0 and 1. *)
Definition masked_select {A : Type} (input : list A) (mask : list Z)
  : outcome (list A) :=
  if (length input =? length mask)%nat then select_by_mask input mask
  else
    match input, mask with
    | _, [m] => select_by_mask input (replicate (length input) m)
    | [x], _ => select_by_mask (replicate (length mask) x) mask
    | _, _ => Raise RuntimeError
    end.

(** [torch.bincount(input, minlength=minlength)]: one bin per value up to
    the largest value present, at least [minlength] bins, every entry of
    [input] adds one to its bin; negative entries are refused. *)
Definition bincount (input : list Z) (minlength : Z) : outcome (list Z) :=
  if (minlength <? 0)%Z then Raise RuntimeError
  else if existsb (fun x => (x <? 0)%Z) input then Raise RuntimeError
  else
    let size := Z.max minlength (foldr Z.max (-1)%Z input + 1) in
    Ok (fold_left (fun bins x => alter Z.succ (Z.to_nat x) bins)
                  input (replicate (Z.to_nat size) 0%Z)).

(** [torch.cat(rows, 0)] of row vectors viewed as [1 x n]: the list must
    not be empty and the widths must agree. *)
Definition cat_rows {A : Type} (rows : list (list A)) : outcome (list (list A)) :=
  match rows with
  | [] => Raise RuntimeError
  | r :: rest =>
      if forallb (fun r' => (length r' =? length r)%nat) rest then Ok rows
      else Raise RuntimeError
  end.

(** The body of the loop: the bag of words of one document under its
    mask.  [stopword_indicator] is given by its entries
    ([1 x VOCAB_SIZE]); [1 - indicator.byte()] is computed on unsigned
    bytes; [.float()] reads the counts as reals. *)
Definition bow_vector (vocab_size : Z) (stopword_indicator : option (list Z))
    (document doc_mask : list Z) : outcome (list R) :=
  let* document := masked_select document (map byte doc_mask) in
  let* counts := bincount document vocab_size in
  let vec := map IZR counts in
  match stopword_indicator with
  | Some indicator =>
      masked_select vec (map (fun s => byte (1 - byte s)) indicator)
  | None => Ok vec
  end.

(** [tokens] is the batch of token indices, one row per document, although
    the annotation says [Dict]: it is wrapped as [{"tokens": tokens}] for
    the mask and its rows are iterated. *)
Definition compute_bow (tokens : list (list Z)) (vocab_size : Z)
    (stopword_indicator : option (list Z)) : outcome (list (list R)) :=
  let mask := get_text_field_mask tokens in
  let* bow_vectors :=
    omap (fun x => bow_vector vocab_size stopword_indicator (fst x) (snd x))
         (zip tokens mask) in
  cat_rows bow_vectors.

(** The number of positions of [document] that hold [v] and are not
    masked out. *)
Definition unmasked_occurrences (v : Z) (document doc_mask : list Z) : nat :=
  length (List.filter (fun '(t, m) => (t =? v)%Z && negb (m =? 0)%Z)
                      (zip document doc_mask)).

(** ** [split_instances] *)

(** An integer tensor: its shape and its entries in row-major order. *)
Record tensor : Type := Tensor { shape : list nat; data : list Z }.

Definition numel (sh : list nat) : nat := foldr Nat.mul 1%nat sh.

Definition nelement (t : tensor) : nat := numel (shape t).

(** [len(t.shape)]. *)
Definition ndim (t : tensor) : nat := length (shape t).

(** [t.squeeze()]: the dimensions of size 1 are dropped. *)
Definition squeeze (t : tensor) : tensor :=
  Tensor (List.filter (fun d => negb (d =? 1)%nat) (shape t)) (data t).

(** [t.unsqueeze(0)]. *)
Definition unsqueeze0 (t : tensor) : tensor :=
  Tensor (1%nat :: shape t) (data t).

(** [flags.nonzero()] for a vector: a [k x 1] tensor of the positions of
    the non-zero entries. *)
Definition nonzero (flags : list Z) : tensor :=
  let indices :=
    map (fun p => Z.of_nat (fst p))
        (List.filter (fun p => negb (snd p =? 0)%Z) (enumerate flags)) in
  Tensor [length indices; 1%nat] indices.

(** Entry [i] of [t] along its first dimension, of width [w]. *)
Definition chunk (w : nat) (xs : list Z) (i : nat) : list Z :=
  take w (drop (i * w) xs).

(** [t[idx]] for an integer index tensor [idx]: the entries of [t] along
    its first dimension at the positions held by [idx], negative
    positions counting from the end. *)
Definition index_first (t idx : tensor) : outcome tensor :=
  match shape t with
  | [] => Raise IndexError
  | r :: rest =>
      let w := numel rest in
      let* chunks :=
        omap (fun i : Z =>
                let i' := if (i <? 0)%Z then (i + Z.of_nat r)%Z else i in
                if (0 <=? i')%Z && (i' <? Z.of_nat r)%Z
                then Ok (chunk w (data t) (Z.to_nat i'))
                else Raise IndexError)
             (data idx) in
      Ok (Tensor (shape idx ++ rest) (concat chunks))
  end.

(** [t[idx, :]]: as [t[idx]], for [t] of rank 2 at least. *)
Definition index_rows (t idx : tensor) : outcome tensor :=
  if (ndim t <? 2)%nat then Raise IndexError else index_first t idx.

(** [d[key]] on a dictionary. *)
Definition getitem {V : Type} (d : gmap string V) (key : string) : outcome V :=
  match d !! key with
  | Some v => Ok v
  | None => Raise KeyError
  end.

(** The values of the returned dictionaries: a tensor, or a dictionary of
    tensors. *)
Inductive value : Type :=
  | VTensor (t : tensor)
  | VDict (d : gmap string tensor).

Definition split_instances (tokens : gmap string tensor) (is_labeled : list Z)
    (targets : option (gmap string tensor)) (label : option tensor)
  : outcome (gmap string value * gmap string value) :=
  let labeled_instances : gmap string value := ∅ in
  let unlabeled_instances : gmap string value := ∅ in
  let labeled_indices := squeeze (nonzero is_labeled) in
  let* labeled_instances :=
    if (0 <? nelement labeled_indices)%nat then
      let* all_tokens := getitem tokens "tokens" in
      let* labeled_tokens := index_rows all_tokens labeled_indices in
      let* labeled_labels :=
        match label with
        | Some l => index_first l labeled_indices
        | None => Raise TypeError
        end in
      let labeled_tokens :=
        if (ndim labeled_tokens =? 1)%nat then unsqueeze0 labeled_tokens
        else labeled_tokens in
      let labeled_labels :=
        if (ndim labeled_labels =? 0)%nat then unsqueeze0 labeled_labels
        else labeled_labels in
      let labeled_instances :=
        <["tokens" := VDict {["tokens" := labeled_tokens]}]> labeled_instances in
      let labeled_instances :=
        <["label" := VTensor labeled_labels]> labeled_instances in
      match targets with
      | Some tg =>
          let* all_targets := getitem tg "tokens" in
          let* labeled_targets := index_rows all_targets labeled_indices in
          let labeled_targets :=
            if (ndim labeled_targets =? 1)%nat then unsqueeze0 labeled_targets
            else labeled_targets in
          Ok (<["targets" := VDict {["tokens" := labeled_targets]}]>
                labeled_instances)
      | None => Ok labeled_instances
      end
    else Ok labeled_instances in
  let unlabeled_indices :=
    squeeze (nonzero (map (fun f => if (f =? 0)%Z then 1%Z else 0%Z) is_labeled)) in
  let* unlabeled_instances :=
    if (0 <? nelement unlabeled_indices)%nat then
      let* all_tokens := getitem tokens "tokens" in
      let* unlabeled_tokens := index_rows all_tokens unlabeled_indices in
      let unlabeled_tokens :=
        if (ndim unlabeled_tokens =? 1)%nat then unsqueeze0 unlabeled_tokens
        else unlabeled_tokens in
      let unlabeled_instances :=
        <["tokens" := VDict {["tokens" := unlabeled_tokens]}]> unlabeled_instances in
      match targets with
      | Some tg =>
          let* all_targets := getitem tg "tokens" in
          let* unlabeled_targets := index_rows all_targets unlabeled_indices in
          let unlabeled_targets :=
            if (ndim unlabeled_targets =? 1)%nat then unsqueeze0 unlabeled_targets
            else unlabeled_targets in
          Ok (<["targets" := VDict {["tokens" := unlabeled_targets]}]>
                unlabeled_instances)
      | None => Ok unlabeled_instances
      end
    else Ok unlabeled_instances in
  Ok (labeled_instances, unlabeled_instances).

(** ** [check_dispersion] *)

(** What a call reaches beyond its arguments: numpy's global generator,
    given by the sequence of raw numbers it produces and how many were
    drawn so far, and the storage behind the tensor passed as [vecs], one
    row per vector of the batch. *)
Record world : Type := World {
  tape : nat -> Z;
  drawn : nat;
  vecs : list (list R)
}.

(** [np.random.randint(low, high)]: the next raw number, brought into
    [[low, high)]; an empty range is refused. *)
Definition randint (low high : Z) : stateful world Z :=
  fun w =>
    if (high <=? low)%Z then (Raise ValueError, w)
    else (Ok (low + tape w (drawn w) mod (high - low))%Z,
          World (tape w) (S (drawn w)) (vecs w)).

(** [vecs.size(1)] after [vecs.unsqueeze(0)]: the number of rows. *)
Definition batch_size : stateful world Z :=
  fun w => (Ok (Z.of_nat (length (vecs w))), w).

(** The loop [while True: idx2 = randint(0, high); if idx1 != idx2: break]. *)
Fixpoint resample (fuel : nat) (idx1 high : Z) : stateful world Z :=
  match fuel with
  | O => fun w => (Timeout, w)
  | S fuel' =>
      idx2 <- randint 0 high ;;
      if (idx1 =? idx2)%Z then resample fuel' idx1 high else sret idx2
  end.

(** [np.cos(a, b)] for the rows [a = vecs[0][idx1]] and
    [b = vecs[0][idx2]]: the second positional argument of a numpy ufunc
    is its output array, so the cosines of [a] are written into [b] and
    [b] is returned.  [.detach().cpu().numpy()] shares the storage of a
    tensor that lives on the CPU and copies it otherwise. *)
Definition cos_into (on_cpu : bool) (idx1 idx2 : Z) : stateful world (list R) :=
  fun w =>
    match vecs w !! Z.to_nat idx1, vecs w !! Z.to_nat idx2 with
    | Some a, Some _ =>
        let out := map cos a in
        (Ok out,
         if on_cpu
         then World (tape w) (drawn w) (<[Z.to_nat idx2 := out]> (vecs w))
         else w)
    | _, _ => (Raise IndexError, w)
    end.

(** The accumulator [cos_sim]: the integer it starts as, or an array. *)
Inductive accumulator : Type :=
  | AccInt (z : Z)
  | AccArray (xs : list R).

(** [cos_sim += c] for an array [c]. *)
Definition accumulate (cos_sim : accumulator) (c : list R) : accumulator :=
  match cos_sim with
  | AccInt z => AccArray (map (fun x => (IZR z + x)%R) c)
  | AccArray xs => AccArray (zip_with Rplus xs c)
  end.

(** [iterations] rounds of the [for] loop. *)
Fixpoint sample_pairs (fuel : nat) (on_cpu : bool) (iterations : nat)
    (cos_sim : accumulator) : stateful world accumulator :=
  match iterations with
  | O => sret cos_sim
  | S iterations' =>
      size1 <- batch_size ;;
      idx1 <- randint 0 (size1 - 1) ;;
      size1 <- batch_size ;;
      idx2 <- resample fuel idx1 (size1 - 1) ;;
      c <- cos_into on_cpu idx1 idx2 ;;
      sample_pairs fuel on_cpu iterations' (accumulate cos_sim c)
  end.

(** What the function returns: [torch.zeros(1)], a numpy array, or the
    Python float [0 / num_sam]. *)
Inductive dispersion : Type :=
  | TorchTensor (xs : list R)
  | NdArray (xs : list R)
  | PyFloat (x : R).

Definition check_dispersion (fuel : nat) (on_cpu : bool) (num_sam : Z)
  : stateful world dispersion :=
  size1 <- batch_size ;;
  if (size1 <=? 2)%Z then sret (TorchTensor [0%R])
  else
    cos_sim <- sample_pairs fuel on_cpu (Z.to_nat num_sam) (AccInt 0) ;;
    match cos_sim with
    | AccInt z =>
        if (num_sam =? 0)%Z then sraise ZeroDivisionError
        else sret (PyFloat (IZR z / IZR num_sam))
    | AccArray xs => sret (NdArray (map (fun x => (x / IZR num_sam)%R) xs))
    end.

(** A vector that a round of the loop can read from the tensor whose
    rows were [rows] at the call: a row below the last one, or the
    cosines of such a vector, written back by an earlier round. *)
Inductive read_row (rows : list (list R)) : list R -> Prop :=
  | read_original (i : nat) (a : list R) :
      (i < length rows - 1)%nat -> rows !! i = Some a -> read_row rows a
  | read_cosines (a : list R) :
      read_row rows a -> read_row rows (map cos a).

(** Entry by entry, the sum of the cosines of the vectors [args], each of
    [dim] entries. *)
Definition cosine_sums (dim : nat) (args : list (list R)) : list R :=
  map (fun j => sum_R (map (fun a => cos (nth j a 0%R)) args)) (seq 0 dim).

(** [cosine_sums / num_sam]. *)
Definition mean_of_cosines (dim : nat) (args : list (list R)) (num_sam : Z)
  : list R :=
  map (fun x => (x / IZR num_sam)%R) (cosine_sums dim args).

(** The accumulator of [check_dispersion] after the rounds that passed
    the vectors [args] to [np.cos], the latest first: still the integer
    0 before the first round, afterwards the array of their sums. *)
Definition accumulated (dim : nat) (args : list (list R)) (acc : accumulator)
  : Prop :=
  match acc with
  | AccInt z => z = 0%Z /\ args = []
  | AccArray xs => args <> [] /\ xs = cosine_sums dim args
  end.

(** A generator whose next raw numbers are 0, 1, 1, 0 and a batch of three
    vectors of one entry. *)
Definition example_world : world :=
  World (fun n => nth n [0; 1; 1; 0]%Z 0%Z) 0 [[0%R]; [2%R]; [5%R]].

(** ** [sample] *)

Section Sample.

(** torch's generator and [torch.multinomial(probabilities, num_samples)]
    on a batch of rows, which returns a tensor of shape
    [rows x num_samples] of drawn indices; the development does not
    depend on how the library draws. *)
Variable generator : Type.
Variable multinomial : list (list R) -> nat -> stateful generator tensor.

(** The local variable [sample] is bound by the assignment in the
    [greedy] branch only; reading it unbound raises. *)
Definition sample (dist : list (list R)) (strategy : string)
  : stateful generator tensor :=
  sample_var <-
    (if (strategy =? "greedy")%string then
       let dist := map softmax dist in
       drawn_indices <- multinomial dist 1 ;;
       sret (Some drawn_indices)
     else sret None) ;;
  match sample_var with
  | Some drawn_indices => sret (squeeze drawn_indices)
  | None => sraise UnboundLocalError
  end.

End Sample.

(** ** [compute_background_log_frequency] *)

(** The machine the call runs on: the files that hold a JSON object of
    word counts, by path, the paths opened so far, and the content of
    memory that was allocated and not yet written. *)
Record host : Type := Host {
  files : gmap string (gmap string R);
  opened : list string;
  uninitialised : nat -> R
}.

(** [json.load(open(path, "r"))]. *)
Definition json_load_open (path : string) : stateful host (gmap string R) :=
  fun fs =>
    match files fs !! path with
    | Some content =>
        (Ok content,
         Host (files fs) (opened fs ++ [path]) (uninitialised fs))
    | None => (Raise FileNotFoundError, fs)
    end.

(** [torch.FloatTensor(n)]: [n] entries that hold whatever the memory
    held. *)
Definition float_tensor (n : nat) : stateful host (list R) :=
  fun fs => (Ok (map (uninitialised fs) (seq 0 n)), fs).

(** allennlp's [Vocabulary]: for every namespace, the tokens by index. *)
Record Vocabulary : Type := { index_to_token : gmap string (list string) }.

Definition get_vocab_size (vocab : Vocabulary) (namespace : string) : nat :=
  length (default [] (index_to_token vocab !! namespace)).

Definition get_token_from_index (vocab : Vocabulary) (index : nat)
    (namespace : string) : outcome string :=
  match index_to_token vocab !! namespace ≫= (fun toks => toks !! index) with
  | Some token => Ok token
  | None => Raise KeyError
  end.

Definition special_tokens : list string :=
  ["@@UNKNOWN@@"; "@@PADDING@@"; "@@start@@"; "@@end@@"].

(** [token in (...)] and [token in precomputed_word_counts]. *)
Definition is_special (token : string) : bool :=
  existsb (String.eqb token) special_tokens.

Definition contains (counts : gmap string R) (token : string) : bool :=
  bool_decide (is_Some (counts !! token)).

(** A floating-point result that may be infinite or undefined. *)
Inductive xreal : Type :=
  | Finite (x : R)
  | NegInf
  | NaN.

(** [torch.log] on one entry. *)
Definition torch_log (x : R) : xreal :=
  if Rlt_dec 0 x then Finite (ln x)
  else if Req_dec_T x 0 then NegInf
  else NaN.

(** A [for] loop whose body may raise. *)
Fixpoint ofold {A B : Type} (body : B -> A -> outcome B) (xs : list A) (b : B)
  : outcome B :=
  match xs with
  | [] => Ok b
  | x :: xs' => let* b' := body b x in ofold body xs' b'
  end.

(** The body of the loop over the indices of the vocabulary. *)
Definition store_frequency (counts : gmap string R) (vocab : Vocabulary)
    (vocab_namespace : string) (log_term_frequency : list R) (i : nat)
  : outcome (list R) :=
  let* token := get_token_from_index vocab i vocab_namespace in
  if is_special token || negb (contains counts token) then
    Ok (<[i := 1e-12%R]> log_term_frequency)
  else if contains counts token then
    let* c := getitem counts token in
    Ok (<[i := c]> log_term_frequency)
  else Ok log_term_frequency.

Definition compute_background_log_frequency (precomputed_word_counts : string)
    (vocab : Vocabulary) (vocab_namespace : string)
  : stateful host (list xreal) :=
  counts <- json_load_open precomputed_word_counts ;;
  log_term_frequency <- float_tensor (get_vocab_size vocab vocab_namespace) ;;
  log_term_frequency <-
    slift (ofold (store_frequency counts vocab vocab_namespace)
                 (seq 0 (get_vocab_size vocab vocab_namespace))
                 log_term_frequency) ;;
  sret (map torch_log log_term_frequency).

(** The entry that the specification gives to a token before the
    logarithm: its count in the file, and [1e-12] for the four special
    tokens and for a token the file does not hold. *)
Definition expected_entry (counts : gmap string R) (token : string) : R :=
  if is_special token then 1e-12%R
  else match counts !! token with
       | Some c => c
       | None => 1e-12%R
       end.

(** The statement of the partition, in the words of the specification:
    the positions of the flags that satisfy [P], in increasing order. *)
Definition positions_from (a : nat) (P : Z -> bool) (flags : list Z) : list nat :=
  map fst (List.filter (fun p => P (snd p)) (zip (seq a (length flags)) flags)).

Definition positions (P : Z -> bool) (flags : list Z) : list nat :=
  positions_from 0 P flags.

Definition is_nonzero (f : Z) : bool := negb (f =? 0)%Z.

Definition is_zero (f : Z) : bool := (f =? 0)%Z.

(** The entries of [t] along its first dimension at the positions [pos],
    stacked in that order. *)
Definition gather (t : tensor) (pos : list nat) : tensor :=
  Tensor (length pos :: tail (shape t))
         (concat (map (chunk (numel (tail (shape t))) (data t)) pos)).

(** The dictionary holding the instances at [pos]: nothing when there is
    none, else their token rows, their labels when [label] is passed and
    their target rows when [targets] is passed. *)
Definition instances_at (pos : list nat) (all_tokens : tensor)
    (all_targets : option tensor) (label : option tensor) : gmap string value :=
  match pos with
  | [] => ∅
  | _ =>
      let d : gmap string value :=
        {["tokens" := VDict {["tokens" := gather all_tokens pos]}]} in
      let d :=
        match label with
        | Some l => <["label" := VTensor (gather l pos)]> d
        | None => d
        end in
      match all_targets with
      | Some tg => <["targets" := VDict {["tokens" := gather tg pos]}]> d
      | None => d
      end
  end.

(** The number of instances that an output dictionary holds: the first
    dimension of its token tensor, and 0 when it has no ["tokens"]
    entry. *)
Definition instance_count (instances : gmap string value) : nat :=
  match instances !! "tokens" with
  | Some (VDict d) =>
      match d !! "tokens" with
      | Some t => hd 0%nat (shape t)
      | None => 0%nat
      end
  | _ => 0%nat
  end.

(** The width that [bincount] gives the row of a document: the size of
    the vocabulary, or more when a token that is not padding has an index
    beyond it. *)
Definition bow_width (vocab_size : Z) (document : list Z) : nat :=
  Z.to_nat (Z.max vocab_size
              (foldr Z.max (-1)%Z
                 (List.filter (fun t => negb (t =? 0)%Z) document) + 1)).

(** * Theorems *)

(** ** [schedule] *)

Section ScheduleFacts.
#[local] Open Scope R_scope.

Lemma schedule_linear (n : Z) :
  schedule n "linear" = Rmin 1 (IZR n / 2500).
Proof. reflexivity. Qed.

Lemma schedule_sigmoid (n : Z) :
  schedule n "sigmoid" = 1 / (1 + exp (- 0.0025 * (IZR n - 2500))).
Proof. reflexivity. Qed.

Lemma schedule_reverse_sigmoid (n : Z) :
  schedule n "reverse_sigmoid" = 1 / (1 + exp (0.0025 * (IZR n - 2500))).
Proof. reflexivity. Qed.

Lemma exp_le_mono (x y : R) : x <= y -> exp x <= exp y.
Proof.
  intros [Hlt | ->]; [left; now apply exp_increasing | right; reflexivity].
Qed.

(** [1 / (1 + exp u)] decreases as [u] grows. *)
Lemma logistic_antitone (u v : R) :
  u <= v -> 1 / (1 + exp v) <= 1 / (1 + exp u).
Proof.
  intros Huv.
  pose proof (exp_pos u) as Hu. pose proof (exp_pos v) as Hv.
  pose proof (exp_le_mono u v Huv) as Hle.
  unfold Rdiv. rewrite !Rmult_1_l.
  apply Rinv_le_contravar; lra.
Qed.

End ScheduleFacts.

(** C3: the annealing weight does not decrease with the batch number for
    "linear" and "sigmoid", does not increase for "reverse_sigmoid", and is
    1 at every batch number for "constant". *)
Theorem schedule_monotone (a b : Z) :
  (a <= b)%Z ->
  (schedule a "linear" <= schedule b "linear")%R /\
  (schedule a "sigmoid" <= schedule b "sigmoid")%R /\
  (schedule a "reverse_sigmoid" >= schedule b "reverse_sigmoid")%R /\
  (forall c d : Z, schedule c "constant" = schedule d "constant").
Proof.
  intros Hab. apply IZR_le in Hab.
  repeat split.
  - rewrite !schedule_linear.
    apply Rle_min_compat_l. lra.
  - rewrite !schedule_sigmoid. apply logistic_antitone. lra.
  - rewrite !schedule_reverse_sigmoid. apply Rle_ge, logistic_antitone. lra.
Qed.

Lemma schedule_monotone_witness :
  (schedule 0 "linear" <= schedule 5000 "linear")%R /\
  (schedule 0 "sigmoid" <= schedule 5000 "sigmoid")%R /\
  (schedule 0 "reverse_sigmoid" >= schedule 5000 "reverse_sigmoid")%R /\
  (forall c d : Z, schedule c "constant" = schedule d "constant").
Proof. apply (schedule_monotone 0 5000). lia. Defined.

(** ** [interpolate] *)

Section InterpolateFacts.
#[local] Open Scope R_scope.

Lemma linspace_length (s e : R) (num : nat) : length (linspace s e num) = num.
Proof.
  unfold linspace.
  repeat (case_match; simpl);
    rewrite ?length_insert, !length_map, length_seq; reflexivity.
Qed.

(** Away from the overwritten last sample, sample [i] is
    [i * step + start]. *)
Lemma linspace_lookup (s e : R) (num i : nat) :
  (2 <= num)%nat -> (i < num)%nat ->
  linspace s e num !! i = Some (s + INR i * ((e - s) / INR (num - 1))).
Proof.
  intros Hnum Hi.
  assert (Hdiv : INR (num - 1) <> 0) by (apply not_0_INR; lia).
  assert (Hraw : forall f : R -> R,
             map (fun v => v + s) (map f (map INR (seq 0 num))) !! i
             = Some (f (INR i) + s)).
  { intros f. rewrite !list_lookup_fmap, lookup_seq_lt by lia. reflexivity. }
  unfold linspace.
  replace (0 <? num - 1)%nat with true by (symmetry; apply Nat.ltb_lt; lia).
  replace (1 <? num)%nat with true by (symmetry; apply Nat.ltb_lt; lia).
  destruct (decide (i = num - 1)%nat) as [-> | Hne].
  - rewrite list_lookup_insert_eq.
    + f_equal. field. exact Hdiv.
    + destruct (Req_dec_T _ _); rewrite !length_map, length_seq; lia.
  - rewrite list_lookup_insert_ne by congruence.
    destruct (Req_dec_T _ _) as [Hz | Hnz]; rewrite Hraw; f_equal.
    + field. exact Hdiv.
    + lra.
Qed.

Lemma linspace_first (s e : R) (num : nat) :
  (2 <= num)%nat -> linspace s e num !! 0%nat = Some s.
Proof.
  intros Hnum. rewrite linspace_lookup by lia. f_equal. simpl. lra.
Qed.

Lemma linspace_last (s e : R) (num : nat) :
  (2 <= num)%nat -> linspace s e num !! (num - 1)%nat = Some e.
Proof.
  intros Hnum. rewrite linspace_lookup by lia. f_equal. field.
  apply not_0_INR. lia.
Qed.

(** The loop of indexed stores fills the rows in order. *)
Lemma store_rows (num : nat) (ps : list (R * R)) :
  forall pre rest : list (list R),
    length rest = length ps ->
    fold_left
      (fun acc '(dim, (s, e)) => <[dim := linspace s e num]> acc)
      (zip (seq (length pre) (length ps)) ps) (pre ++ rest)
    = pre ++ map (fun '(s, e) => linspace s e num) ps.
Proof.
  induction ps as [| [s e] ps IH]; intros pre rest Hlen.
  - destruct rest; [reflexivity | discriminate].
  - destruct rest as [| r rest]; [discriminate |].
    simpl in Hlen. injection Hlen as Hlen.
    cbn [length seq zip zip_with fold_left].
    rewrite insert_app_r_alt by lia.
    rewrite Nat.sub_diag. cbn [insert list_insert].
    specialize (IH (pre ++ [linspace s e num]) rest Hlen).
    rewrite length_app, Nat.add_1_r in IH. cbn [length] in IH.
    rewrite <- app_assoc in IH. cbn [app] in IH.
    rewrite IH, <- app_assoc. reflexivity.
Qed.

Lemma interpolate_rows (start end_ : list R) (steps : Z) :
  length start = length end_ -> (0 <= steps)%Z ->
  interpolate start end_ steps
  = Ok (transpose (Z.to_nat (steps + 2))
          (map (fun '(s, e) => linspace s e (Z.to_nat (steps + 2)))
               (zip start end_))).
Proof.
  intros Hlen Hsteps. unfold interpolate, enumerate.
  replace (steps + 2 <? 0)%Z with false by (symmetry; apply Z.ltb_ge; lia).
  do 2 f_equal.
  apply (store_rows _ (zip start end_) []).
  rewrite length_replicate, length_zip. lia.
Qed.

Lemma transpose_lookup (ncols : nat) (m : list (list R)) (i : nat) :
  (i < ncols)%nat ->
  transpose ncols m !! i = Some (map (fun row => nth i row 0) m).
Proof.
  intros Hi. unfold transpose.
  rewrite list_lookup_fmap, lookup_seq_lt by lia. reflexivity.
Qed.

(** Row [i] of the result, read through a function [g] giving sample [i]
    of every [linspace]. *)
Lemma interpolate_row (num i : nat) (g : R -> R -> R) (ps : list (R * R)) :
  (forall s e, linspace s e num !! i = Some (g s e)) ->
  map (fun row => nth i row 0) (map (fun '(s, e) => linspace s e num) ps)
  = map (fun '(s, e) => g s e) ps.
Proof.
  intros Hg. rewrite map_map. apply map_ext. intros [s e].
  apply nth_lookup_Some with (d := 0). apply Hg.
Qed.

End InterpolateFacts.

(** C4: for vectors of one length and [steps >= 0] the result has
    [steps + 2] rows of that length, the first is [start], the last is
    [end], and entry [d] of row [i] is
    [start[d] + i * (end[d] - start[d]) / (steps + 1)]. *)
Theorem interpolate_linear (start end_ : list R) (steps : Z) :
  length start = length end_ ->
  (0 <= steps)%Z ->
  exists m,
    interpolate start end_ steps = Ok m /\
    length m = Z.to_nat (steps + 2) /\
    (forall row, row ∈ m -> length row = length start) /\
    m !! 0%nat = Some start /\
    m !! Z.to_nat (steps + 1) = Some end_ /\
    (forall (i d : nat) (s e : R),
        (i <= Z.to_nat (steps + 1))%nat ->
        start !! d = Some s -> end_ !! d = Some e ->
        m !! i ≫= (fun row => row !! d)
        = Some (s + INR i * ((e - s) / INR (Z.to_nat (steps + 1))))%R).
Proof.
  intros Hlen Hsteps.
  set (num := Z.to_nat (steps + 2)).
  assert (Hnum : (2 <= num)%nat) by (subst num; lia).
  assert (Hlast : Z.to_nat (steps + 1) = (num - 1)%nat) by (subst num; lia).
  eexists. split; [apply interpolate_rows; assumption |]. fold num.
  assert (Hrow : forall i, (i < num)%nat ->
            transpose num (map (fun '(s, e) => linspace s e num) (zip start end_)) !! i
            = Some (map (fun '(s, e) =>
                           (s + INR i * ((e - s) / INR (num - 1)))%R)
                        (zip start end_))).
  { intros i Hi. rewrite transpose_lookup by exact Hi. f_equal.
    apply interpolate_row. intros s e. apply linspace_lookup; assumption. }
  repeat split.
  - unfold transpose. rewrite length_map, length_seq. reflexivity.
  - intros row Hin. apply list_elem_of_lookup in Hin as [i Hi].
    assert (Hlt : (i < num)%nat).
    { apply lookup_lt_Some in Hi. unfold transpose in Hi.
      rewrite length_map, length_seq in Hi. exact Hi. }
    rewrite Hrow in Hi by exact Hlt. injection Hi as <-.
    rewrite length_map, length_zip. lia.
  - rewrite transpose_lookup by lia. f_equal.
    rewrite (interpolate_row num 0 (fun s _ => s)).
    + rewrite <- (fst_zip start end_) at 2 by lia.
      apply map_ext. intros [s e]. reflexivity.
    + intros s e. apply linspace_first. exact Hnum.
  - rewrite Hlast, transpose_lookup by lia. f_equal.
    rewrite (interpolate_row num (num - 1) (fun _ e => e)).
    + rewrite <- (snd_zip start end_) at 2 by lia.
      apply map_ext. intros [s e]. reflexivity.
    + intros s e. apply linspace_last. exact Hnum.
  - intros i d s e Hi Hs He.
    rewrite Hrow by lia. cbn [mbind option_bind].
    rewrite list_lookup_fmap.
    assert (Hz : zip start end_ !! d = Some (s, e)).
    { rewrite lookup_zip_with. rewrite Hs. cbn. rewrite He. reflexivity. }
    rewrite Hz, Hlast. reflexivity.
Qed.

Lemma interpolate_linear_witness :
  exists m,
    interpolate [0%R; 1%R] [2%R; 5%R] 1 = Ok m /\
    length m = Z.to_nat (1 + 2) /\
    (forall row, row ∈ m -> length row = length [0%R; 1%R]) /\
    m !! 0%nat = Some [0%R; 1%R] /\
    m !! Z.to_nat (1 + 1) = Some [2%R; 5%R] /\
    (forall (i d : nat) (s e : R),
        (i <= Z.to_nat (1 + 1))%nat ->
        [0%R; 1%R] !! d = Some s -> [2%R; 5%R] !! d = Some e ->
        m !! i ≫= (fun row => row !! d)
        = Some (s + INR i * ((e - s) / INR (Z.to_nat (1 + 1))))%R).
Proof. apply (interpolate_linear [0%R; 1%R] [2%R; 5%R] 1); [reflexivity | lia]. Defined.

(** ** [log_standard_categorical] *)

Section CategoricalFacts.
#[local] Open Scope R_scope.

Lemma sum_R_replicate (k : nat) (c : R) : sum_R (replicate k c) = INR k * c.
Proof.
  induction k as [| k IH]; [simpl; lra |].
  rewrite S_INR. cbn [replicate sum_R foldr]. fold (sum_R (replicate k c)).
  rewrite IH. lra.
Qed.

Lemma map_replicate {A B : Type} (f : A -> B) (k : nat) (x : A) :
  map f (replicate k x) = replicate k (f x).
Proof. induction k as [| k IH]; [reflexivity | simpl; now rewrite IH]. Qed.

(** The softmax of a vector of ones is the uniform distribution. *)
Lemma softmax_ones (p : list R) :
  softmax (ones_like p) = replicate (length p) (1 / INR (length p)).
Proof.
  unfold softmax, ones_like.
  destruct p as [| x p]; [reflexivity |].
  set (k := length (x :: p)).
  assert (Hk : INR k <> 0) by (apply not_0_INR; subst k; simpl; lia).
  rewrite !map_replicate, sum_R_replicate. f_equal.
  pose proof (exp_pos 1). field. split; lra.
Qed.

Lemma sum_R_zeros (c : R) (p : list R) :
  (forall j, (j < length p)%nat -> p !! j = Some 0) ->
  sum_R (zip_with Rmult p (replicate (length p) c)) = 0.
Proof.
  induction p as [| y p IH]; intros Hz; [reflexivity |].
  cbn [length replicate zip_with sum_R foldr].
  fold (sum_R (zip_with Rmult p (replicate (length p) c))).
  assert (Hy : Some y = Some 0) by (apply (Hz 0%nat); simpl; lia).
  injection Hy as ->.
  rewrite IH; [lra |].
  intros j Hj. apply (Hz (S j)). simpl. lia.
Qed.

(** Against a constant vector, the weighted sum takes the weight of the
    one entry that is 1. *)
Lemma sum_R_one_hot (c : R) (p : list R) :
  forall i : nat,
    p !! i = Some 1 ->
    (forall j, j <> i -> (j < length p)%nat -> p !! j = Some 0) ->
    sum_R (zip_with Rmult p (replicate (length p) c)) = c.
Proof.
  induction p as [| x p IH]; intros i Hi Hz; [discriminate |].
  cbn [length replicate zip_with sum_R foldr].
  fold (sum_R (zip_with Rmult p (replicate (length p) c))).
  destruct i as [| i].
  - injection Hi as ->.
    rewrite sum_R_zeros; [lra |].
    intros j Hj. apply (Hz (S j)); [lia | simpl; lia].
  - assert (Hx : Some x = Some 0) by (apply (Hz 0%nat); [lia | simpl; lia]).
    injection Hx as ->.
    rewrite (IH i); [lra | exact Hi |].
    intros j Hj Hlt. apply (Hz (S j)); [lia | simpl; lia].
Qed.

End CategoricalFacts.

(** Every row that [one_hot] builds for an index inside the new dimension
    is a one-hot vector. *)
Lemma one_hot_row_is_one_hot (idxs : list Z) (k : nat) (d : nat) (i : Z) (row : list R) :
  idxs !! d = Some i -> (0 <= i < Z.of_nat k)%Z ->
  one_hot idxs k !! d = Some row ->
  is_one_hot row /\ length row = k.
Proof.
  intros Hd Hi Hrow. unfold one_hot, arange in Hrow.
  rewrite list_lookup_fmap, Hd in Hrow. injection Hrow as <-.
  split; [| rewrite !length_map, length_seq; reflexivity].
  exists (Z.to_nat i). split.
  - rewrite !list_lookup_fmap, lookup_seq_lt by lia. cbn.
    replace (i =? Z.of_nat (Z.to_nat i))%Z with true
      by (symmetry; apply Z.eqb_eq; lia).
    reflexivity.
  - intros j Hj Hlt. rewrite !length_map, length_seq in Hlt.
    rewrite !list_lookup_fmap, lookup_seq_lt by lia. cbn.
    replace (i =? Z.of_nat j)%Z with false
      by (symmetry; apply Z.eqb_neq; lia).
    reflexivity.
Qed.

Section CrossEntropyFacts.
#[local] Open Scope R_scope.

(** Whatever [p] is, the function is minus the cross entropy between [p]
    and the prior with [1e-8] added to its entries. *)
Lemma log_standard_categorical_negated (p : list R) :
  log_standard_categorical p
  = - cross_entropy p (map (fun q => q + 1e-8) (softmax (ones_like p))).
Proof.
  unfold log_standard_categorical, cross_entropy.
  rewrite map_map. lra.
Qed.

Lemma cross_entropy_uniform (p : list R) :
  is_one_hot p ->
  cross_entropy p (softmax (ones_like p)) = - ln (1 / INR (length p)).
Proof.
  intros [i [Hi Hz]]. unfold cross_entropy.
  rewrite softmax_ones, map_replicate.
  rewrite (sum_R_one_hot _ p i Hi Hz). reflexivity.
Qed.

(** [log(1/k + 1e-8)] is not [- log(1/k)], for any number [k >= 1] of
    categories: it is negative from two categories on. *)
Lemma smoothed_log_sign (k : nat) :
  (1 <= k)%nat ->
  ln (1 / INR k + 1e-8) <> - ln (1 / INR k) /\
  ((2 <= k)%nat -> ln (1 / INR k + 1e-8) < 0 < - ln (1 / INR k)).
Proof.
  intros Hk.
  assert (Hfrom2 : (2 <= k)%nat -> ln (1 / INR k + 1e-8) < 0 < - ln (1 / INR k)).
  { intros Hk2. pose proof (le_INR 2 k Hk2) as Hx. simpl in Hx.
    assert (Hinv : 0 < / INR k) by (apply Rinv_0_lt_compat; lra).
    assert (Hone : INR k * / INR k = 1) by (apply Rinv_r; lra).
    assert (Hhalf : 1 / INR k <= 1 / 2) by (unfold Rdiv; nra).
    assert (Hpos : 0 < 1 / INR k) by (unfold Rdiv; lra).
    pose proof (ln_increasing (1 / INR k + 1e-8) 1 ltac:(lra) ltac:(lra)) as H1.
    pose proof (ln_increasing (1 / INR k) 1 Hpos ltac:(lra)) as H2.
    rewrite ln_1 in H1, H2. lra. }
  split; [| exact Hfrom2].
  destruct (decide (k = 1%nat)) as [-> | Hne].
  - simpl INR. replace (1 / 1) with 1 by lra. rewrite ln_1.
    pose proof (ln_increasing 1 (1 + 1e-8) ltac:(lra) ltac:(lra)) as H1.
    rewrite ln_1 in H1. lra.
  - specialize (Hfrom2 ltac:(lia)). lra.
Qed.

End CrossEntropyFacts.

(** C7: on a one-hot vector with [k] categories the function is
    [log(1/k + 1e-8)], and that is not the cross entropy between the
    vector and the uniform distribution, which is [- log(1/k)]: the sum
    is returned without the minus sign of the cross entropy. *)
Theorem log_standard_categorical_one_hot (p : list R) :
  is_one_hot p ->
  let u := softmax (ones_like p) in
  log_standard_categorical p = ln (1 / INR (length p) + 1e-8) /\
  log_standard_categorical p
  = (- cross_entropy p (map (fun q => q + 1e-8) u))%R /\
  cross_entropy p u = (- ln (1 / INR (length p)))%R /\
  log_standard_categorical p <> cross_entropy p u /\
  (2 <= length p -> (log_standard_categorical p < 0 < cross_entropy p u)%R).
Proof.
  intros Hp u. subst u.
  assert (Hvalue : log_standard_categorical p = ln (1 / INR (length p) + 1e-8)).
  { destruct Hp as [i [Hi Hz]]. unfold log_standard_categorical.
    rewrite softmax_ones, map_replicate.
    apply (sum_R_one_hot _ p i Hi Hz). }
  assert (Hk : 1 <= length p).
  { destruct Hp as [i [Hi _]]. apply lookup_lt_Some in Hi. lia. }
  destruct (smoothed_log_sign (length p) Hk) as [Hne Hsign].
  split; [exact Hvalue |].
  split; [apply log_standard_categorical_negated |].
  split; [apply cross_entropy_uniform, Hp |].
  rewrite Hvalue, (cross_entropy_uniform p Hp).
  split; [exact Hne | exact Hsign].
Qed.

Lemma log_standard_categorical_one_hot_witness :
  log_standard_categorical [0%R; 1%R; 0%R] = ln (1 / INR 3 + 1e-8) /\
  (log_standard_categorical [0%R; 1%R; 0%R] < 0
   < cross_entropy [0%R; 1%R; 0%R] (softmax (ones_like [0%R; 1%R; 0%R])))%R.
Proof.
  destruct (log_standard_categorical_one_hot [0%R; 1%R; 0%R])
    as (Hvalue & _ & _ & _ & Hsign).
  - exists 1%nat. split; [reflexivity |].
    intros [| [| [| j]]] Hj Hlt; try reflexivity; [congruence | simpl in Hlt; lia].
  - split; [exact Hvalue | apply Hsign; simpl; lia].
Defined.

(** ** [compute_bow] *)

Section BowFacts.
#[local] Open Scope Z_scope.

(** A loop whose body returns on every element returns, and its results
    are related to the elements one by one. *)
Lemma omap_Forall2 {A B : Type} (f : A -> outcome B) (P : A -> B -> Prop)
    (xs : list A) :
  (forall x, x ∈ xs -> exists y, f x = Ok y /\ P x y) ->
  exists ys, omap f xs = Ok ys /\ Forall2 P xs ys.
Proof.
  induction xs as [| x xs IH]; intros Hf.
  - exists []. split; [reflexivity | constructor].
  - destruct (Hf x) as [y [Hy HP]]; [left |].
    destruct IH as [ys [Hys HF]].
    { intros x' Hx'. apply Hf. now right. }
    exists (y :: ys). cbn [omap]. rewrite Hy, Hys.
    split; [reflexivity | now constructor].
Qed.

Lemma masked_select_same_length {A : Type} (input : list A) (mask : list Z) :
  length input = length mask ->
  binary_mask mask = true ->
  masked_select input mask = Ok (masked_pick input mask).
Proof.
  intros Hlen Hbin. unfold masked_select, select_by_mask.
  rewrite (proj2 (Nat.eqb_eq _ _) Hlen), Hbin. reflexivity.
Qed.

(** The padding mask holds 0 and 1 only. *)
Lemma padding_mask_binary (document : list Z) :
  binary_mask (map byte (map (fun t => if t =? 0 then 0 else 1) document))
  = true.
Proof.
  unfold binary_mask.
  induction document as [| t document IH]; [reflexivity |].
  cbn [map forallb]. rewrite IH. destruct (t =? 0); reflexivity.
Qed.

(** So does [1 - indicator.byte()] for an indicator of 0 and 1. *)
Lemma indicator_mask_binary (indicator : list Z) :
  (forall s, s ∈ indicator -> s = 0 \/ s = 1) ->
  binary_mask (map (fun s => byte (1 - byte s)) indicator) = true.
Proof.
  unfold binary_mask.
  induction indicator as [| s indicator IH]; intros Hbin; [reflexivity |].
  cbn [map forallb]. rewrite IH by (intros s' Hs'; apply Hbin; now right).
  destruct (Hbin s) as [-> | ->]; [left | reflexivity | reflexivity].
Qed.

(** Selecting by the padding mask keeps the tokens that are not 0. *)
Lemma masked_pick_padding (document : list Z) :
  masked_pick document
    (map byte (map (fun t => if t =? 0 then 0 else 1) document))
  = List.filter (fun t => negb (t =? 0)) document.
Proof.
  induction document as [| t document IH]; [reflexivity |].
  cbn [map masked_pick List.filter].
  destruct (t =? 0); cbn; rewrite IH; reflexivity.
Qed.

Lemma unmasked_occurrences_padding (v : Z) (document : list Z) :
  unmasked_occurrences v document (map (fun t => if t =? 0 then 0 else 1) document)
  = length (List.filter (fun t => t =? v)
              (List.filter (fun t => negb (t =? 0)) document)).
Proof.
  unfold unmasked_occurrences.
  induction document as [| t document IH]; [reflexivity |].
  cbn [map zip zip_with List.filter].
  destruct (t =? 0) eqn:Ht0; cbn [negb andb List.filter].
  - rewrite Bool.andb_false_r. exact IH.
  - rewrite Bool.andb_true_r.
    destruct (t =? v); cbn [length]; rewrite IH; reflexivity.
Qed.

(** The counting loop of [bincount]: the bins keep their number, and bin
    [n] grows by the number of entries equal to [n]. *)
Lemma count_into_bins (input : list Z) :
  forall bins : list Z,
    (forall x, x ∈ input -> 0 <= x /\ (Z.to_nat x < length bins)%nat) ->
    let out := fold_left (fun bins x => alter Z.succ (Z.to_nat x) bins)
                         input bins in
    length out = length bins /\
    forall v c, 0 <= v -> bins !! Z.to_nat v = Some c ->
      out !! Z.to_nat v
      = Some (c + Z.of_nat (length (List.filter (fun t => t =? v) input))).
Proof.
  induction input as [| x input IH]; intros bins Hin; cbn zeta.
  - split; [reflexivity |]. intros v c _ Hc. cbn. rewrite Hc. f_equal. lia.
  - cbn [fold_left].
    destruct (IH (alter Z.succ (Z.to_nat x) bins)) as [Hlen Hcount].
    { intros y Hy. rewrite length_alter. apply Hin. now right. }
    cbn zeta in Hlen, Hcount. rewrite length_alter in Hlen.
    split; [exact Hlen |].
    intros v c Hv Hc. cbn [List.filter].
    destruct (Hin x) as [Hx0 _]; [left |].
    destruct (Z.eqb_spec x v) as [-> | Hne].
    + rewrite (Hcount v (Z.succ c)) by
        (try lia; rewrite list_lookup_alter_eq, Hc; reflexivity).
      f_equal. cbn [length]. lia.
    + rewrite (Hcount v c) by
        (try lia; rewrite list_lookup_alter_ne by lia; exact Hc).
      reflexivity.
Qed.

Lemma largest_below (input : list Z) (m : Z) :
  -1 < m -> (forall x, x ∈ input -> x < m) -> foldr Z.max (-1) input < m.
Proof.
  intros Hm. induction input as [| x input IH]; intros Hin; [exact Hm |].
  cbn [foldr]. apply Z.max_lub_lt.
  - apply Hin. left.
  - apply IH. intros y Hy. apply Hin. now right.
Qed.

Lemma bincount_in_range (input : list Z) (minlength : Z) :
  0 <= minlength ->
  (forall x, x ∈ input -> 0 <= x < minlength) ->
  exists bins,
    bincount input minlength = Ok bins /\
    length bins = Z.to_nat minlength /\
    forall v, 0 <= v < minlength ->
      bins !! Z.to_nat v
      = Some (Z.of_nat (length (List.filter (fun t => t =? v) input))).
Proof.
  intros Hmin Hin. unfold bincount.
  replace (minlength <? 0) with false by (symmetry; apply Z.ltb_ge; lia).
  replace (existsb (fun x => x <? 0) input) with false.
  2:{ symmetry. apply Bool.not_true_is_false. intros Hex.
      apply existsb_exists in Hex as [x [Hx Hneg]].
      apply Z.ltb_lt in Hneg. apply list_elem_of_In in Hx.
      specialize (Hin x Hx). lia. }
  assert (Hmax : foldr Z.max (-1) input < minlength).
  { apply largest_below; [lia |]. intros x Hx. apply Hin, Hx. }
  assert (Hsize : Z.max minlength (foldr Z.max (-1) input + 1) = minlength) by lia.
  rewrite Hsize. eexists. split; [reflexivity |].
  destruct (count_into_bins input (replicate (Z.to_nat minlength) 0)) as [Hlen Hcount].
  { intros x Hx. rewrite length_replicate. specialize (Hin x Hx). lia. }
  cbn zeta in Hlen, Hcount. rewrite length_replicate in Hlen.
  split; [exact Hlen |].
  intros v Hv. rewrite (Hcount v 0); [f_equal; lia | lia |].
  apply lookup_replicate_2. lia.
Qed.

End BowFacts.

Section BowTheorem.
#[local] Open Scope Z_scope.

Lemma zip_with_mask {A B : Type} (g : A -> B) (xs : list A) :
  zip xs (map g xs) = map (fun x => (x, g x)) xs.
Proof.
  induction xs as [| x xs IH]; [reflexivity |].
  cbn [map zip zip_with]. f_equal. exact IH.
Qed.

Lemma omap_Forall2_Ok {A B C : Type} (g : A -> outcome C) (h : B -> C)
    (xs : list A) (ys : list B) :
  Forall2 (fun x y => g x = Ok (h y)) xs ys ->
  omap g xs = Ok (map h ys).
Proof.
  induction 1 as [| x y xs ys Hxy _ IH]; [reflexivity |].
  cbn [omap map]. rewrite Hxy, IH. reflexivity.
Qed.

Lemma Forall2_right {A B : Type} (P : A -> B -> Prop) (Q : B -> Prop)
    (xs : list A) (ys : list B) :
  (forall x y, P x y -> Q y) -> Forall2 P xs ys -> Forall Q ys.
Proof.
  intros HPQ. induction 1 as [| x y xs ys Hxy _ IH]; constructor; eauto.
Qed.

Lemma masked_pick_length {A B : Type} (xs : list A) (ys : list B) (mask : list Z) :
  length xs = length ys ->
  length (masked_pick xs mask) = length (masked_pick ys mask).
Proof.
  revert ys mask. induction xs as [| x xs IH]; intros [| y ys] mask Hlen;
    try discriminate; [reflexivity |].
  destruct mask as [| m mask]; [reflexivity |].
  cbn [masked_pick]. injection Hlen as Hlen.
  destruct (m =? 0); cbn [length]; rewrite (IH ys mask Hlen); reflexivity.
Qed.

Lemma cat_rows_same_width {A : Type} (w : nat) (rows : list (list A)) :
  rows <> [] ->
  Forall (fun row => length row = w) rows ->
  cat_rows rows = Ok rows.
Proof.
  intros Hne Hw. destruct rows as [| r rest]; [congruence |].
  unfold cat_rows. inversion Hw as [| ? ? Hr Hrest]; subst.
  replace (forallb (fun r' => (length r' =? length r)%nat) rest) with true;
    [reflexivity |].
  symmetry. apply forallb_forall. intros r' Hr'.
  apply Nat.eqb_eq. rewrite Forall_forall in Hrest.
  apply Hrest, list_elem_of_In, Hr'.
Qed.

Lemma bow_vector_counts (vocab_size : Z) (document : list Z) :
  0 <= vocab_size ->
  (forall t, t ∈ document -> 0 <= t < vocab_size) ->
  let doc_mask := map (fun t => if t =? 0 then 0 else 1) document in
  exists row,
    bow_vector vocab_size None document doc_mask = Ok row /\
    length row = Z.to_nat vocab_size /\
    forall v, 0 <= v < vocab_size ->
      row !! Z.to_nat v
      = Some (INR (unmasked_occurrences v document doc_mask)).
Proof.
  intros Hsize Hin doc_mask. unfold bow_vector.
  subst doc_mask.
  rewrite masked_select_same_length;
    [| rewrite !length_map; reflexivity | apply padding_mask_binary].
  rewrite masked_pick_padding. cbn [obind].
  destruct (bincount_in_range
              (List.filter (fun t => negb (t =? 0)) document) vocab_size Hsize)
    as [bins [Hbins [Hlen Hcount]]].
  { intros x Hx. apply list_elem_of_In, filter_In in Hx as [Hx _].
    apply Hin, list_elem_of_In, Hx. }
  rewrite Hbins. cbn [obind]. eexists. split; [reflexivity |].
  split; [rewrite length_map; exact Hlen |].
  intros v Hv. rewrite list_lookup_fmap, (Hcount v Hv). cbn.
  rewrite unmasked_occurrences_padding, INR_IZR_INZ. reflexivity.
Qed.

End BowTheorem.

(** C1, as the code has it: for a batch that is not empty, whose token
    indices lie in [0, vocab_size), and no stop-word indicator, the result
    has a row per document, of length [vocab_size], whose entry [v] is the
    number of unmasked occurrences of [v] in the document; with an
    indicator of [vocab_size] entries, each 0 or 1, every row is that row
    with the entries at the stop words removed. *)
Theorem compute_bow_counts (tokens : list (list Z)) (vocab_size : Z) :
  tokens <> [] ->
  (0 <= vocab_size)%Z ->
  (forall document t, document ∈ tokens -> t ∈ document ->
                      (0 <= t < vocab_size)%Z) ->
  exists bow,
    compute_bow tokens vocab_size None = Ok bow /\
    length bow = length tokens /\
    (forall (d : nat) (document doc_mask : list Z),
        tokens !! d = Some document ->
        get_text_field_mask tokens !! d = Some doc_mask ->
        exists row,
          bow !! d = Some row /\
          length row = Z.to_nat vocab_size /\
          forall v, (0 <= v < vocab_size)%Z ->
            row !! Z.to_nat v
            = Some (INR (unmasked_occurrences v document doc_mask))) /\
    (forall indicator : list Z,
        length indicator = Z.to_nat vocab_size ->
        (forall s, s ∈ indicator -> s = 0%Z \/ s = 1%Z) ->
        compute_bow tokens vocab_size (Some indicator)
        = Ok (map (fun row =>
                     masked_pick row
                       (map (fun s => byte (1 - byte s)) indicator))
                  bow)).
Proof.
  intros Hne Hsize Hin.
  set (P := fun (x : list Z * list Z) (row : list R) =>
              bow_vector vocab_size None (fst x) (snd x) = Ok row /\
              length row = Z.to_nat vocab_size /\
              forall v, (0 <= v < vocab_size)%Z ->
                row !! Z.to_nat v
                = Some (INR (unmasked_occurrences v (fst x) (snd x)))).
  destruct (omap_Forall2 (fun x => bow_vector vocab_size None (fst x) (snd x)) P
              (zip tokens (get_text_field_mask tokens)))
    as [bow [Hbow HP]].
  { intros [document doc_mask] Hx. unfold get_text_field_mask in Hx.
    rewrite zip_with_mask in Hx.
    apply list_elem_of_fmap in Hx as [document' [[= -> ->] Hdoc]].
    destruct (bow_vector_counts vocab_size document' Hsize)
      as [row Hrow]; [intros t Ht; now apply (Hin document') |].
    exists row. split; [apply Hrow |]. exact Hrow. }
  assert (Hlen : length bow = length tokens).
  { apply Forall2_length in HP. rewrite <- HP, length_zip.
    unfold get_text_field_mask. rewrite length_map. lia. }
  assert (Hbow_ne : bow <> []).
  { intros ->. destruct tokens; [congruence | discriminate]. }
  assert (Hwidth : Forall (fun row => length row = Z.to_nat vocab_size) bow).
  { apply (Forall2_right P _ _ _ (fun x y Hxy => proj1 (proj2 Hxy)) HP). }
  exists bow. repeat split.
  - unfold compute_bow. rewrite Hbow. cbn [obind].
    apply (cat_rows_same_width (Z.to_nat vocab_size)); assumption.
  - exact Hlen.
  - intros d document doc_mask Hd Hm.
    assert (Hz : zip tokens (get_text_field_mask tokens) !! d
                 = Some (document, doc_mask)).
    { rewrite lookup_zip_with, Hd. cbn. rewrite Hm. reflexivity. }
    destruct (Forall2_lookup_l _ _ _ _ _ HP Hz) as [row [Hrow [_ HPr]]].
    exists row. split; [exact Hrow |]. exact HPr.
  - intros indicator Hind Hbin. unfold compute_bow.
    set (keep := map (fun s => byte (1 - byte s)) indicator).
    rewrite (omap_Forall2_Ok _ (fun row => masked_pick row keep) _ bow).
    + cbn [obind].
      apply (cat_rows_same_width
               (length (masked_pick (replicate (Z.to_nat vocab_size) 0%R) keep))).
      * destruct bow; [congruence | discriminate].
      * apply Forall_forall. intros row' Hrow'.
        apply list_elem_of_fmap in Hrow' as [row [-> Hrow]].
        apply masked_pick_length.
        rewrite Forall_forall in Hwidth.
        rewrite (Hwidth row Hrow), length_replicate. reflexivity.
    + eapply Forall2_impl; [exact HP |].
      intros [document doc_mask] row [Hrow [Hw _]].
      unfold bow_vector in Hrow |- *. cbn [fst snd] in Hrow |- *.
      destruct (masked_select document (map byte doc_mask)) as [sel | |];
        cbn [obind] in Hrow |- *; try discriminate.
      destruct (bincount sel vocab_size) as [counts | |];
        cbn [obind] in Hrow |- *; try discriminate.
      injection Hrow as <-.
      apply masked_select_same_length;
        [| subst keep; apply indicator_mask_binary, Hbin].
      rewrite length_map in Hw. subst keep.
      rewrite !length_map. lia.
Qed.

Lemma compute_bow_counts_witness :
  exists bow,
    compute_bow [[1; 2; 2; 0]; [3; 1; 0; 0]]%Z 4 None = Ok bow /\
    length bow = 2.
Proof.
  destruct (compute_bow_counts [[1; 2; 2; 0]; [3; 1; 0; 0]]%Z 4)
    as (bow & Hbow & Hlen & _).
  - discriminate.
  - lia.
  - intros document t Hdoc Ht.
    assert (Hall : Forall (Forall (fun t => (0 <= t < 4)%Z))
                     [[1; 2; 2; 0]; [3; 1; 0; 0]]%Z)
      by (repeat constructor; lia).
    rewrite Forall_forall in Hall. specialize (Hall document Hdoc).
    rewrite Forall_forall in Hall. exact (Hall t Ht).
  - exists bow. split; [exact Hbow | exact Hlen].
Defined.

(** Outside the conditions of [compute_bow_counts]: an empty batch is
    refused by [torch.cat], and a token index beyond the vocabulary makes
    the row of its document wider. *)
Example compute_bow_empty_batch : compute_bow [] 3 None = Raise RuntimeError.
Proof. reflexivity. Qed.

Example compute_bow_index_beyond_vocabulary :
  compute_bow [[5]]%Z 3 None = Ok [[0%R; 0%R; 0%R; 0%R; 0%R; 1%R]].
Proof. reflexivity. Qed.

(** C1 fails as stated: with a stop-word indicator the row of a document
    is shorter than the vocabulary, and its entry 1 counts index 2. *)
Lemma compute_bow_stopwords_shorten :
  compute_bow [[1; 2; 2]]%Z 3 (Some [0; 1; 0]%Z) = Ok [[0%R; 2%R]] /\
  length [0%R; 2%R] <> Z.to_nat 3 /\
  [0%R; 2%R] !! 1 <> Some (INR (unmasked_occurrences 1 [1; 2; 2]%Z [1; 1; 1]%Z)).
Proof.
  split; [reflexivity |]. split; [discriminate |].
  cbn. intros [= Heq]. lra.
Qed.

(** ** [split_instances] *)

Section SplitFacts.

Lemma elem_of_positions_from (P : Z -> bool) (flags : list Z) :
  forall a i,
    i ∈ positions_from a P flags <->
    a <= i /\ exists f, flags !! (i - a) = Some f /\ P f = true.
Proof.
  unfold positions_from.
  induction flags as [| f0 flags IH]; intros a i.
  - cbn. split; [intros H; inversion H |].
    intros [_ [f [Hf _]]]. discriminate.
  - cbn [length seq zip zip_with List.filter snd].
    assert (Htail : i ∈ map fst (List.filter (fun p => P (snd p))
                                   (zip (seq (S a) (length flags)) flags))
                    <-> a <= i /\ i <> a /\
                        exists f, (f0 :: flags) !! (i - a) = Some f /\ P f = true).
    { rewrite (IH (S a) i). split.
      - intros [Hle [f [Hf HP]]]. split; [lia |]. split; [lia |].
        exists f. split; [| exact HP].
        replace (i - a) with (S (i - S a)) by lia. exact Hf.
      - intros [Hle [Hne [f [Hf HP]]]]. split; [lia |].
        exists f. split; [| exact HP].
        replace (i - a) with (S (i - S a)) in Hf by lia. exact Hf. }
    destruct (P f0) eqn:HP0; cbn [map fst].
    + rewrite elem_of_cons, Htail. split.
      * intros [-> | [Hle [_ Hex]]].
        -- split; [lia |]. exists f0. rewrite Nat.sub_diag. split; [reflexivity | exact HP0].
        -- split; assumption.
      * intros [Hle Hex]. destruct (decide (i = a)) as [-> | Hne]; [now left |].
        right. repeat split; assumption.
    + rewrite Htail. split.
      * intros [Hle [_ Hex]]. split; assumption.
      * intros [Hle [f [Hf HPf]]]. split; [exact Hle |].
        split; [| exists f; split; assumption].
        intros ->. rewrite Nat.sub_diag in Hf. cbn in Hf.
        injection Hf as ->. congruence.
Qed.

Lemma NoDup_positions_from (P : Z -> bool) (flags : list Z) :
  forall a, NoDup (positions_from a P flags).
Proof.
  induction flags as [| f0 flags IH]; intros a; [constructor |].
  specialize (IH (S a)).
  pose proof (elem_of_positions_from P flags (S a) a) as Hnot.
  unfold positions_from in *.
  cbn [length seq zip zip_with List.filter snd].
  destruct (P f0); cbn [map fst]; [| exact IH].
  apply NoDup_cons. split; [| exact IH].
  rewrite Hnot. intros [Hle _]. lia.
Qed.

Lemma elem_of_positions (P : Z -> bool) (flags : list Z) (i : nat) :
  i ∈ positions P flags <-> exists f, flags !! i = Some f /\ P f = true.
Proof.
  unfold positions. rewrite elem_of_positions_from, Nat.sub_0_r.
  split; [intros [_ H]; exact H | intros H; split; [lia | exact H]].
Qed.

Lemma positions_lt (P : Z -> bool) (flags : list Z) :
  Forall (fun i => i < length flags) (positions P flags).
Proof.
  apply Forall_forall. intros i Hi.
  apply elem_of_positions in Hi as [f [Hf _]].
  apply lookup_lt_Some in Hf. exact Hf.
Qed.

(** The positions where the flags mapped by [g] satisfy [Q]. *)
Lemma positions_from_map (Q : Z -> bool) (g : Z -> Z) (flags : list Z) :
  forall a,
    positions_from a Q (map g flags) = positions_from a (fun f => Q (g f)) flags.
Proof.
  unfold positions_from.
  induction flags as [| f0 flags IH]; intros a; [reflexivity |].
  cbn [map length seq zip zip_with List.filter snd].
  destruct (Q (g f0)); cbn [map fst]; rewrite <- (IH (S a)); reflexivity.
Qed.

Lemma positions_from_ext (P Q : Z -> bool) (flags : list Z) (a : nat) :
  (forall f, P f = Q f) -> positions_from a P flags = positions_from a Q flags.
Proof.
  intros HPQ. unfold positions_from. f_equal.
  apply filter_ext. intros p. apply HPQ.
Qed.

Lemma nonzero_positions (flags : list Z) :
  nonzero flags
  = Tensor [length (positions is_nonzero flags); 1]
           (map Z.of_nat (positions is_nonzero flags)).
Proof.
  unfold nonzero, positions, positions_from, enumerate, is_nonzero.
  rewrite map_map, !length_map. reflexivity.
Qed.

Lemma nonzero_of_zero_test (flags : list Z) :
  nonzero (map (fun f => if (f =? 0)%Z then 1%Z else 0%Z) flags)
  = Tensor [length (positions is_zero flags); 1]
           (map Z.of_nat (positions is_zero flags)).
Proof.
  rewrite nonzero_positions. unfold positions.
  rewrite positions_from_map.
  rewrite (positions_from_ext _ is_zero); [reflexivity |].
  intros f. unfold is_nonzero, is_zero. destruct (f =? 0)%Z; reflexivity.
Qed.

(** Squeezing the [k x 1] tensor of positions leaves a scalar when
    [k = 1] and a vector otherwise. *)
Lemma squeeze_positions (k : nat) (d : list Z) :
  squeeze (Tensor [k; 1] d) = Tensor (if k =? 1 then [] else [k]) d.
Proof.
  unfold squeeze. cbn [shape data List.filter Nat.eqb negb].
  destruct (k =? 1); reflexivity.
Qed.

Lemma nelement_positions (k : nat) (d : list Z) :
  (0 <? nelement (Tensor (if k =? 1 then [] else [k]) d))
  = negb (k =? 0).
Proof.
  unfold nelement. destruct (Nat.eqb_spec k 1) as [-> | Hk]; [reflexivity |].
  cbn [shape numel foldr]. rewrite Nat.mul_1_r.
  destruct k; reflexivity.
Qed.

Lemma index_first_positions (t : tensor) (sh : list nat) (pos : list nat)
    (r : nat) (rest : list nat) :
  shape t = r :: rest ->
  Forall (fun i => i < r) pos ->
  index_first t (Tensor sh (map Z.of_nat pos))
  = Ok (Tensor (sh ++ rest)
          (concat (map (chunk (numel rest) (data t)) pos))).
Proof.
  intros Hshape Hpos. unfold index_first. rewrite Hshape. cbn [data shape].
  rewrite (omap_Forall2_Ok _ (chunk (numel rest) (data t)) _ pos);
    [reflexivity |].
  apply Forall2_fmap_l, Forall_Forall2_diag.
  eapply Forall_impl; [exact Hpos |].
  intros i Hi. unfold compose. cbn beta zeta in Hi |- *.
  replace (Z.of_nat i <? 0)%Z with false by (symmetry; apply Z.ltb_ge; lia).
  replace (0 <=? Z.of_nat i)%Z with true by (symmetry; apply Z.leb_le; lia).
  replace (Z.of_nat i <? Z.of_nat r)%Z with true by (symmetry; apply Z.ltb_lt; lia).
  cbn [andb]. rewrite Nat2Z.id. reflexivity.
Qed.

End SplitFacts.

Section SplitTheorem.

Lemma take_rows (t : tensor) (pos : list nat) (n c : nat) :
  shape t = [n; c] ->
  Forall (fun i => i < n) pos ->
  exists x,
    index_rows t (Tensor (if length pos =? 1 then [] else [length pos])
                         (map Z.of_nat pos)) = Ok x /\
    (if ndim x =? 1 then unsqueeze0 x else x) = gather t pos.
Proof.
  intros Hshape Hpos. unfold index_rows, ndim at 1. rewrite Hshape.
  cbn [length Nat.ltb Nat.leb].
  rewrite (index_first_positions t _ pos n [c] Hshape Hpos).
  eexists. split; [reflexivity |].
  unfold gather, ndim, unsqueeze0. rewrite Hshape. cbn [shape data tail].
  destruct (Nat.eqb_spec (length pos) 1) as [-> | Hk]; reflexivity.
Qed.

Lemma take_labels (l : tensor) (pos : list nat) (n : nat) :
  shape l = [n] ->
  Forall (fun i => i < n) pos ->
  exists x,
    index_first l (Tensor (if length pos =? 1 then [] else [length pos])
                          (map Z.of_nat pos)) = Ok x /\
    (if ndim x =? 0 then unsqueeze0 x else x) = gather l pos.
Proof.
  intros Hshape Hpos.
  rewrite (index_first_positions l _ pos n [] Hshape Hpos).
  eexists. split; [reflexivity |].
  unfold gather, ndim, unsqueeze0. rewrite Hshape. cbn [shape data tail].
  destruct (Nat.eqb_spec (length pos) 1) as [-> | Hk]; reflexivity.
Qed.

Lemma chunk_length (w : nat) (xs : list Z) (i : nat) :
  (i + 1) * w <= length xs -> length (chunk w xs i) = w.
Proof.
  intros Hle. unfold chunk. rewrite length_take, length_drop. lia.
Qed.

Lemma chunk_app_0 (w : nat) (a b : list Z) :
  length a = w -> chunk w (a ++ b) 0 = a.
Proof.
  intros Hlen. unfold chunk. rewrite Nat.mul_0_l, drop_0.
  apply take_app_length'. symmetry. exact Hlen.
Qed.

Lemma chunk_app_S (w : nat) (a b : list Z) (j : nat) :
  length a = w -> chunk w (a ++ b) (S j) = chunk w b j.
Proof.
  intros Hlen. unfold chunk.
  replace (S j * w) with (w + j * w) by lia.
  rewrite drop_app_add' by (symmetry; exact Hlen). reflexivity.
Qed.

(** Entry [j] of the gathered data is the entry of the source at the
    [j]-th position. *)
Lemma chunk_concat (w : nat) (xs : list Z) (pos : list nat) :
  Forall (fun i => (i + 1) * w <= length xs) pos ->
  forall j i, pos !! j = Some i ->
    chunk w (concat (map (chunk w xs) pos)) j = chunk w xs i.
Proof.
  induction 1 as [| p pos Hp _ IH]; intros j i Hj; [discriminate |].
  cbn [map concat]. pose proof (chunk_length w xs p Hp) as Hlen.
  destruct j as [| j].
  - injection Hj as ->. apply chunk_app_0, Hlen.
  - cbn in Hj. rewrite chunk_app_S by exact Hlen. apply IH, Hj.
Qed.

Lemma nonempty_length {A : Type} (xs : list A) :
  negb (length xs =? 0) = match xs with [] => false | _ => true end.
Proof. destruct xs; reflexivity. Qed.

End SplitTheorem.

(** C2, as the code has it: with a label tensor passed, the labeled
    output holds the token rows, the labels and, when targets are passed,
    the target rows of exactly the instances whose flag is not zero, the
    unlabeled output holds the token rows and target rows (no labels) of
    exactly the instances whose flag is zero, both in batch order, and
    every instance is in one of the two and not in the other. *)
Theorem split_instances_partition
    (tokens : gmap string tensor) (is_labeled : list Z)
    (targets : option (gmap string tensor)) (label all_tokens : tensor)
    (c : nat) :
  tokens !! "tokens" = Some all_tokens ->
  shape all_tokens = [length is_labeled; c] ->
  length (data all_tokens) = length is_labeled * c ->
  shape label = [length is_labeled] ->
  (forall tg, targets = Some tg ->
     exists tt c', tg !! "tokens" = Some tt /\
                   shape tt = [length is_labeled; c']) ->
  let li := positions is_nonzero is_labeled in
  let ui := positions is_zero is_labeled in
  let all_targets := targets ≫= (fun tg => tg !! "tokens") in
  split_instances tokens is_labeled targets (Some label)
  = Ok (instances_at li all_tokens all_targets (Some label),
        instances_at ui all_tokens all_targets None) /\
  (forall i f, is_labeled !! i = Some f ->
     (i ∈ li <-> f <> 0%Z) /\ (i ∈ ui <-> (f = 0)%Z)) /\
  (forall i, i < length is_labeled ->
     (i ∈ li /\ ~ i ∈ ui) \/ (~ i ∈ li /\ i ∈ ui)) /\
  NoDup li /\ NoDup ui /\
  (forall pos j i, (pos = li \/ pos = ui) -> pos !! j = Some i ->
     chunk c (data (gather all_tokens pos)) j = chunk c (data all_tokens) i).
Proof.
  intros Htok Hshape Hdata Hlabel Htargets li ui all_targets.
  assert (Hmem : forall i f, is_labeled !! i = Some f ->
            (i ∈ li <-> f <> 0%Z) /\ (i ∈ ui <-> f = 0%Z)).
  { intros i f Hf. subst li ui. rewrite !elem_of_positions.
    unfold is_nonzero, is_zero. split; split.
    - intros [f' [Hf' HP]]. rewrite Hf in Hf'. injection Hf' as <-.
      apply Bool.negb_true_iff, Z.eqb_neq in HP. exact HP.
    - intros Hne. exists f. split; [exact Hf |].
      apply Bool.negb_true_iff, Z.eqb_neq. exact Hne.
    - intros [f' [Hf' HP]]. rewrite Hf in Hf'. injection Hf' as <-.
      apply Z.eqb_eq in HP. exact HP.
    - intros ->. exists 0%Z. split; [exact Hf | reflexivity]. }
  pose proof (positions_lt is_nonzero is_labeled) as Hli. fold li in Hli.
  pose proof (positions_lt is_zero is_labeled) as Hui. fold ui in Hui.
  split; [| split; [exact Hmem | split; [| split; [| split]]]].
  - unfold split_instances.
    rewrite nonzero_positions, nonzero_of_zero_test, !squeeze_positions,
      !nelement_positions, !nonempty_length.
    fold li ui. unfold getitem. rewrite Htok.
    destruct (take_rows all_tokens li _ c Hshape Hli) as [lt [Hlt Hlt']].
    destruct (take_labels label li _ Hlabel Hli) as [ll [Hll Hll']].
    destruct (take_rows all_tokens ui _ c Hshape Hui) as [ut [Hut Hut']].
    cbv zeta. cbn [obind].
    rewrite Hlt, Hut. cbn [obind]. rewrite Hll. cbn [obind].
    rewrite Hlt', Hll', Hut'.
    unfold instances_at, all_targets.
    destruct targets as [tg |].
    + destruct (Htargets tg eq_refl) as [tt [c' [Htt Hts]]].
      destruct (take_rows tt li _ c' Hts Hli) as [x [Hx Hx']].
      destruct (take_rows tt ui _ c' Hts Hui) as [y [Hy Hy']].
      cbn [mbind option_bind]. rewrite Htt. cbn [obind].
      rewrite Hx, Hy. cbn [obind]. rewrite Hx', Hy'.
      destruct li, ui; cbn [obind]; rewrite ?insert_empty; reflexivity.
    + destruct li, ui; cbn [obind]; rewrite ?insert_empty; reflexivity.
  - intros i Hi.
    destruct (lookup_lt_is_Some_2 is_labeled i Hi) as [f Hf].
    destruct (Hmem i f Hf) as [Hl Hu].
    destruct (decide (f = 0%Z)) as [Hz | Hnz].
    + right. split; [rewrite Hl; tauto | rewrite Hu; exact Hz].
    + left. split; [rewrite Hl; exact Hnz | rewrite Hu; exact Hnz].
  - apply NoDup_positions_from.
  - apply NoDup_positions_from.
  - intros pos j i Hpos Hj. unfold gather. rewrite Hshape.
    cbn [tail shape data numel foldr]. rewrite Nat.mul_1_r.
    apply chunk_concat; [| exact Hj].
    assert (Hlt : Forall (fun i => i < length is_labeled) pos)
      by (destruct Hpos as [-> | ->]; assumption).
    eapply Forall_impl; [exact Hlt |].
    intros p Hp. cbn beta in Hp |- *. rewrite Hdata. nia.
Qed.

Lemma split_instances_partition_witness :
  split_instances {["tokens" := Tensor [3; 2] [1; 2; 3; 4; 5; 6]%Z]}
    [1; 0; 1]%Z None (Some (Tensor [3] [7; 8; 9]%Z))
  = Ok (instances_at (positions is_nonzero [1; 0; 1]%Z)
          (Tensor [3; 2] [1; 2; 3; 4; 5; 6]%Z) None (Some (Tensor [3] [7; 8; 9]%Z)),
        instances_at (positions is_zero [1; 0; 1]%Z)
          (Tensor [3; 2] [1; 2; 3; 4; 5; 6]%Z) None None).
Proof.
  refine (proj1 (split_instances_partition
                   {["tokens" := Tensor [3; 2] [1; 2; 3; 4; 5; 6]%Z]}
                   [1; 0; 1]%Z None (Tensor [3] [7; 8; 9]%Z)
                   (Tensor [3; 2] [1; 2; 3; 4; 5; 6]%Z) 2 _ _ _ _ _));
    try reflexivity.
  intros tg Htg. discriminate.
Defined.

(** C2 fails as stated: without a label tensor a batch that holds a
    labeled instance raises, and with one the unlabeled output carries no
    label of the instance whose flag is zero. *)
Lemma split_instances_label_counterexample :
  split_instances {["tokens" := Tensor [2; 2] [1; 2; 3; 4]%Z]}
    [1; 0]%Z None None = Raise TypeError /\
  exists lab unlab,
    split_instances {["tokens" := Tensor [2; 2] [1; 2; 3; 4]%Z]}
      [1; 0]%Z None (Some (Tensor [2] [7; 8]%Z)) = Ok (lab, unlab) /\
    unlab !! "tokens" = Some (VDict {["tokens" := Tensor [1; 2] [3; 4]%Z]}) /\
    unlab !! "label" = None.
Proof.
  split; [reflexivity |].
  eexists _, _. split; [reflexivity |]. split; reflexivity.
Qed.

(** ** [check_dispersion] *)

Section DispersionFacts.

Lemma sbind_inv {S A B : Type} (m : stateful S A) (f : A -> stateful S B)
    (s s' : S) (r : outcome B) :
  sbind m f s = (r, s') ->
  (exists a s1, m s = (Ok a, s1) /\ f a s1 = (r, s')) \/
  (exists e, m s = (Raise e, s') /\ r = Raise e) \/
  (m s = (Timeout, s') /\ r = Timeout).
Proof.
  unfold sbind. destruct (m s) as [[a | e |] s1]; intros H.
  - left. eauto.
  - right. left. injection H as <- <-. eauto.
  - right. right. injection H as <- <-. eauto.
Qed.

Lemma randint_inv (high : Z) (w w' : world) (r : outcome Z) :
  (0 < high)%Z ->
  randint 0 high w = (r, w') ->
  w' = World (tape w) (S (drawn w)) (vecs w) /\
  exists v, r = Ok v /\ (0 <= v < high)%Z.
Proof.
  intros Hhigh. unfold randint.
  replace (high <=? 0)%Z with false by (symmetry; apply Z.leb_gt; lia).
  intros [= <- <-]. split; [reflexivity |].
  eexists. split; [reflexivity |].
  rewrite Z.sub_0_r. pose proof (Z.mod_pos_bound (tape w (drawn w)) high Hhigh). lia.
Qed.

Lemma resample_inv (fuel : nat) (idx1 high : Z) :
  (0 < high)%Z ->
  forall (w w' : world) (r : outcome Z),
    resample fuel idx1 high w = (r, w') ->
    tape w' = tape w /\ vecs w' = vecs w /\ drawn w <= drawn w' /\
    forall v, r = Ok v -> drawn w < drawn w' /\ (0 <= v < high)%Z.
Proof.
  intros Hhigh. induction fuel as [| fuel IH]; intros w w' r Hrun.
  - injection Hrun as <- <-.
    split; [reflexivity | split; [reflexivity | split; [lia | discriminate]]].
  - cbn [resample] in Hrun.
    apply sbind_inv in Hrun as [(idx2 & w1 & Hdraw & Hrest) | [(e & Hdraw & ->) | (Hdraw & ->)]];
      apply (randint_inv _ _ _ _ Hhigh) in Hdraw as [-> (v & Hv & Hrange)];
      try discriminate.
    injection Hv as ->.
    destruct (idx1 =? v)%Z.
    + apply IH in Hrest as (Ht & Hv & Hd & Hok). cbn in Ht, Hv, Hd, Hok.
      split; [exact Ht | split; [exact Hv | split; [lia |]]].
      intros v' Hv'. specialize (Hok v' Hv'). lia.
    + injection Hrest as <- <-. cbn.
      split; [reflexivity | split; [reflexivity | split; [lia |]]].
      intros v' [= <-]. split; [lia | exact Hrange].
Qed.

Lemma cos_into_inv (on_cpu : bool) (idx1 idx2 : Z) (w w' : world)
    (r : outcome (list R)) :
  cos_into on_cpu idx1 idx2 w = (r, w') ->
  tape w' = tape w /\ drawn w' = drawn w /\
  length (vecs w') = length (vecs w).
Proof.
  unfold cos_into.
  destruct (vecs w !! Z.to_nat idx1), (vecs w !! Z.to_nat idx2);
    try (intros [= <- <-]; repeat split; reflexivity).
  destruct on_cpu; intros [= <- <-]; cbn; rewrite ?length_insert;
    repeat split; reflexivity.
Qed.

(** Every round of the loop draws at least twice from the generator. *)
Lemma sample_pairs_inv (fuel : nat) (on_cpu : bool) (iterations : nat) :
  forall (cos_sim : accumulator) (w w' : world) (r : outcome accumulator),
    2 < length (vecs w) ->
    sample_pairs fuel on_cpu iterations cos_sim w = (r, w') ->
    tape w' = tape w /\
    length (vecs w') = length (vecs w) /\
    drawn w <= drawn w' /\
    (0 < iterations -> drawn w < drawn w') /\
    (forall acc, r = Ok acc -> drawn w + 2 * iterations <= drawn w').
Proof.
  induction iterations as [| iterations IH]; intros cos_sim w w' r Hsize Hrun.
  - injection Hrun as <- <-.
    split; [reflexivity | split; [reflexivity | split; [lia | split; [lia |]]]].
    intros _ _. lia.
  - cbn [sample_pairs] in Hrun.
    assert (Hhigh : (0 < Z.of_nat (length (vecs w)) - 1)%Z) by lia.
    unfold batch_size at 1 in Hrun. unfold sbind at 1 in Hrun.
    apply sbind_inv in Hrun as [(idx1 & w1 & Hdraw & Hrun) | [(e & Hdraw & ->) | (Hdraw & ->)]];
      apply (randint_inv _ _ _ _ Hhigh) in Hdraw as [-> (v & Hv & Hrange)];
      try discriminate.
    injection Hv as ->.
    unfold batch_size at 1 in Hrun. unfold sbind at 1 in Hrun. cbn [vecs] in Hrun.
    apply sbind_inv in Hrun as [(idx2 & w2 & Hre & Hrun) | [(e & Hre & ->) | (Hre & ->)]];
      apply (resample_inv _ _ _ Hhigh) in Hre as (Ht2 & Hv2 & Hd2 & Hok2);
      cbn in Ht2, Hv2, Hd2, Hok2;
      try (split; [congruence | split; [congruence | split; [lia | split; [lia | discriminate]]]]).
    destruct (Hok2 idx2 eq_refl) as [Hd2' _].
    apply sbind_inv in Hrun as [(c & w3 & Hcos & Hrun) | [(e & Hcos & ->) | (Hcos & ->)]];
      apply cos_into_inv in Hcos as (Ht3 & Hd3 & Hl3);
      try (split; [congruence | split; [congruence | split; [lia | split; [lia | discriminate]]]]).
    apply IH in Hrun as (Ht4 & Hl4 & Hd4 & _ & Hok4); [| rewrite Hl3, Hv2; exact Hsize].
    split; [congruence | split; [congruence | split; [lia | split; [lia |]]]].
    intros acc Hacc. specialize (Hok4 acc Hacc). lia.
Qed.

End DispersionFacts.

(** C10: on a batch of at most two rows the function returns
    [torch.zeros(1)] and leaves the generator and the tensor as they
    were, whatever [num_sam] is. *)
Theorem check_dispersion_small_batch
    (fuel : nat) (on_cpu : bool) (num_sam : Z) (w : world) :
  length (vecs w) <= 2 ->
  check_dispersion fuel on_cpu num_sam w = (Ok (TorchTensor [0%R]), w).
Proof.
  intros Hsize. unfold check_dispersion, sbind, batch_size.
  replace (Z.of_nat (length (vecs w)) <=? 2)%Z with true
    by (symmetry; apply Z.leb_le; lia).
  reflexivity.
Qed.

Lemma check_dispersion_small_batch_witness :
  check_dispersion 0 true 10
    (World (fun _ => 0%Z) 0 [[1%R; 2%R]; [3%R; 4%R]])
  = (Ok (TorchTensor [0%R]), World (fun _ => 0%Z) 0 [[1%R; 2%R]; [3%R; 4%R]]).
Proof.
  apply (check_dispersion_small_batch 0 true 10
           (World (fun _ => 0%Z) 0 [[1%R; 2%R]; [3%R; 4%R]])).
  simpl. lia.
Defined.

(** On a batch of more than two rows and with [num_sam >= 1], a call
    draws from the generator and leaves it advanced, by two draws at
    least for every sample when it returns. *)
Lemma check_dispersion_advances
    (fuel : nat) (on_cpu : bool) (num_sam : Z) (w : world) :
  2 < length (vecs w) ->
  (0 < num_sam)%Z ->
  tape (snd (check_dispersion fuel on_cpu num_sam w)) = tape w /\
  drawn w < drawn (snd (check_dispersion fuel on_cpu num_sam w)) /\
  (forall d, fst (check_dispersion fuel on_cpu num_sam w) = Ok d ->
             drawn w + 2 * Z.to_nat num_sam
             <= drawn (snd (check_dispersion fuel on_cpu num_sam w))).
Proof.
  intros Hsize Hsam.
  destruct (check_dispersion fuel on_cpu num_sam w) as [r w'] eqn:Hrun.
  cbn [fst snd]. unfold check_dispersion in Hrun.
  unfold batch_size at 1 in Hrun. unfold sbind at 1 in Hrun.
  replace (Z.of_nat (length (vecs w)) <=? 2)%Z with false in Hrun
    by (symmetry; apply Z.leb_gt; lia).
  apply sbind_inv in Hrun
    as [(acc & w1 & Hloop & Hend) | [(e & Hloop & ->) | (Hloop & ->)]];
    apply (sample_pairs_inv _ _ _ _ _ _ _ Hsize) in Hloop
      as (Ht & _ & _ & Hlt & Hok);
    try (split; [exact Ht | split; [apply Hlt; lia | discriminate]]).
  assert (Hw : w' = w1).
  { destruct acc; [destruct (num_sam =? 0)%Z |]; injection Hend as _ <-; reflexivity. }
  subst w'. split; [exact Ht | split; [apply Hlt; lia |]].
  intros d _. apply (Hok acc eq_refl).
Qed.

Section DispersionExample.
#[local] Open Scope R_scope.

Lemma example_first_call :
  check_dispersion 1 false 1 example_world
  = (Ok (NdArray [(0 + cos 0) / 1]),
     World (tape example_world) 2 (vecs example_world)).
Proof. reflexivity. Qed.

Lemma example_second_call :
  check_dispersion 1 false 1
    (World (tape example_world) 2 (vecs example_world))
  = (Ok (NdArray [(0 + cos 2) / 1]),
     World (tape example_world) 4 (vecs example_world)).
Proof. reflexivity. Qed.

Lemma example_call_on_cpu :
  vecs (snd (check_dispersion 1 true 1 example_world))
  = [[0]; [cos 0]; [5]].
Proof. reflexivity. Qed.

Lemma cos_2_lt_cos_0 : cos 2 < cos 0.
Proof.
  pose proof PI2_1. apply cos_decreasing_1; lra.
Qed.

End DispersionExample.

(** C8 fails as stated: two calls of [check_dispersion] with the same
    arguments, on a tensor that the first call left unchanged, return
    different arrays, the first call leaves the generator changed, and on
    the CPU it overwrites a row of its argument. *)
Lemma check_dispersion_not_deterministic :
  vecs (snd (check_dispersion 1 false 1 example_world)) = vecs example_world /\
  fst (check_dispersion 1 false 1 (snd (check_dispersion 1 false 1 example_world)))
  <> fst (check_dispersion 1 false 1 example_world) /\
  snd (check_dispersion 1 false 1 example_world) <> example_world /\
  vecs (snd (check_dispersion 1 true 1 example_world)) <> vecs example_world.
Proof.
  rewrite example_call_on_cpu, example_first_call. cbn [fst snd].
  rewrite example_second_call. cbn [fst snd].
  pose proof cos_2_lt_cos_0 as Hcos. rewrite cos_0 in *.
  split; [reflexivity |]. split; [| split].
  - intros [= Heq]. lra.
  - intros [= Heq].
  - unfold example_world. cbn [vecs]. intros [= Heq]. lra.
Qed.

(** ** [sample] *)

Section SampleFacts.
Variable generator : Type.
Variable multinomial : list (list R) -> nat -> stateful generator tensor.

Lemma sample_greedy (dist : list (list R)) (g g' : generator) (t : tensor) :
  multinomial (map softmax dist) 1 g = (Ok t, g') ->
  sample generator multinomial dist "greedy" g = (Ok (squeeze t), g').
Proof.
  intros Hdraw. unfold sample, sbind. cbn [String.eqb Ascii.eqb Bool.eqb].
  rewrite Hdraw. reflexivity.
Qed.

Lemma sample_other (dist : list (list R)) (strategy : string) (g : generator) :
  strategy <> "greedy" ->
  sample generator multinomial dist strategy g = (Raise UnboundLocalError, g).
Proof.
  intros Hne. unfold sample, sbind.
  destruct (String.eqb_spec strategy "greedy") as [-> | _]; [congruence |].
  reflexivity.
Qed.

End SampleFacts.

(** C9: with a strategy other than "greedy" the call raises the
    unbound-variable error, whatever the distribution and the sampler of
    the library are, the generator is not touched and no sample comes
    back. *)
Theorem sample_unbound_unless_greedy
    (generator : Type)
    (multinomial : list (list R) -> nat -> stateful generator tensor)
    (dist : list (list R)) (strategy : string) (g : generator) :
  strategy <> "greedy" ->
  sample generator multinomial dist strategy g = (Raise UnboundLocalError, g) /\
  (forall s g', sample generator multinomial dist strategy g <> (Ok s, g')).
Proof.
  intros Hne. rewrite (sample_other generator multinomial dist strategy g Hne).
  split; [reflexivity | discriminate].
Qed.

Lemma sample_unbound_unless_greedy_witness :
  sample unit (fun d n g => (Ok (Tensor [length d; n] (replicate (length d * n) 0%Z)), g))
         [[1%R; 2%R]] "argmax" tt
  = (Raise UnboundLocalError, tt) /\
  (forall s g',
      sample unit (fun d n g => (Ok (Tensor [length d; n] (replicate (length d * n) 0%Z)), g))
             [[1%R; 2%R]] "argmax" tt <> (Ok s, g')).
Proof.
  apply (sample_unbound_unless_greedy unit
           (fun d n g => (Ok (Tensor [length d; n] (replicate (length d * n) 0%Z)), g))
           [[1%R; 2%R]] "argmax" tt).
  discriminate.
Defined.

(** ** [compute_background_log_frequency] *)

Section FrequencyFacts.
Variable counts : gmap string R.
Variable vocab : Vocabulary.
Variable vocab_namespace : string.
Variable toks : list string.
Hypothesis Htoks : index_to_token vocab !! vocab_namespace = Some toks.

Lemma get_vocab_size_toks : get_vocab_size vocab vocab_namespace = length toks.
Proof. unfold get_vocab_size. rewrite Htoks. reflexivity. Qed.

Lemma get_token_from_index_toks (i : nat) (token : string) :
  get_token_from_index vocab i vocab_namespace = Ok token <-> toks !! i = Some token.
Proof.
  unfold get_token_from_index. rewrite Htoks. cbn [mbind option_bind].
  destruct (toks !! i); split; congruence.
Qed.

(** The body of the loop stores the entry of the specification, on
    every branch it can take. *)
Lemma store_frequency_entry (ltf : list R) (i : nat) (token : string) :
  toks !! i = Some token ->
  store_frequency counts vocab vocab_namespace ltf i
  = Ok (<[i := expected_entry counts token]> ltf).
Proof.
  intros Hi. unfold store_frequency, expected_entry, contains, getitem.
  rewrite (proj2 (get_token_from_index_toks i token) Hi). cbn [obind].
  destruct (is_special token); [reflexivity |]. cbn [orb].
  destruct (counts !! token) as [c |] eqn:Hc.
  - rewrite bool_decide_eq_true_2 by eauto. reflexivity.
  - rewrite bool_decide_eq_false_2 by (intros [c Hc']; discriminate).
    reflexivity.
Qed.

Lemma store_all (n : nat) :
  forall (k : nat) (ltf : list R),
    k + n = length toks ->
    length ltf = length toks ->
    exists out,
      ofold (store_frequency counts vocab vocab_namespace) (seq k n) ltf = Ok out /\
      length out = length toks /\
      (forall i, i < k -> out !! i = ltf !! i) /\
      (forall i token, k <= i -> toks !! i = Some token ->
                       out !! i = Some (expected_entry counts token)).
Proof.
  induction n as [| n IH]; intros k ltf Hk Hlen.
  - exists ltf. split; [reflexivity |]. split; [exact Hlen |].
    split; [reflexivity |].
    intros i token Hi Htok. apply lookup_lt_Some in Htok. lia.
  - destruct (lookup_lt_is_Some_2 toks k) as [token Htok]; [lia |].
    cbn [seq ofold]. rewrite (store_frequency_entry ltf k token Htok).
    cbn [obind].
    destruct (IH (S k) (<[k := expected_entry counts token]> ltf))
      as (out & Hout & Hlen' & Hkeep & Hset);
      [lia | rewrite length_insert; exact Hlen |].
    exists out. split; [exact Hout |]. split; [exact Hlen' |]. split.
    + intros i Hi. rewrite Hkeep by lia.
      apply list_lookup_insert_ne. lia.
    + intros i token' Hi Htok'.
      destruct (decide (i = k)) as [-> | Hne].
      * rewrite Hkeep by lia. rewrite Htok in Htok'. injection Htok' as <-.
        apply list_lookup_insert_eq. lia.
      * apply Hset; [lia | exact Htok'].
Qed.

(** The whole call on a host that holds the file. *)
Lemma background_log_frequency_run (path : string) (fs : host) :
  files fs !! path = Some counts ->
  exists ltf,
    compute_background_log_frequency path vocab vocab_namespace fs
    = (Ok (map torch_log ltf),
       Host (files fs) (opened fs ++ [path]) (uninitialised fs)) /\
    length ltf = length toks /\
    forall i token, toks !! i = Some token ->
                    ltf !! i = Some (expected_entry counts token).
Proof.
  intros Hfile.
  unfold compute_background_log_frequency, sbind, slift, sret,
    json_load_open, float_tensor.
  rewrite Hfile, get_vocab_size_toks. cbn [uninitialised].
  destruct (store_all (length toks) 0 (map (uninitialised fs) (seq 0 (length toks))))
    as (out & Hout & Hlen & _ & Hset);
    [lia | rewrite length_map, length_seq; reflexivity |].
  rewrite Hout. cbn [obind].
  exists out. split; [reflexivity |]. split; [exact Hlen |].
  intros i token Htok. apply Hset; [lia | exact Htok].
Qed.

End FrequencyFacts.

Section LogFacts.
#[local] Open Scope R_scope.

Lemma torch_log_pos (x : R) : 0 < x -> torch_log x = Finite (ln x).
Proof.
  intros Hx. unfold torch_log. destruct (Rlt_dec 0 x); [reflexivity | contradiction].
Qed.

Lemma torch_log_default : torch_log 1e-12 = Finite (ln 1e-12).
Proof. apply torch_log_pos. lra. Qed.

End LogFacts.

Lemma background_log_frequency_any
    (path : string) (vocab : Vocabulary) (vocab_namespace : string)
    (fs : host) (counts : gmap string R) :
  files fs !! path = Some counts ->
  exists ltf,
    compute_background_log_frequency path vocab vocab_namespace fs
    = (Ok (map torch_log ltf),
       Host (files fs) (opened fs ++ [path]) (uninitialised fs)) /\
    length ltf = get_vocab_size vocab vocab_namespace /\
    forall i token,
      get_token_from_index vocab i vocab_namespace = Ok token ->
      ltf !! i = Some (expected_entry counts token).
Proof.
  intros Hfile.
  destruct (index_to_token vocab !! vocab_namespace) as [toks |] eqn:Htoks.
  - destruct (background_log_frequency_run counts vocab vocab_namespace toks
                Htoks path fs Hfile) as (ltf & Hrun & Hlen & Hset).
    exists ltf. split; [exact Hrun |].
    split; [rewrite (get_vocab_size_toks vocab vocab_namespace toks Htoks); exact Hlen |].
    intros i token Htok. apply Hset.
    apply (get_token_from_index_toks vocab vocab_namespace toks Htoks), Htok.
  - exists []. split; [| split; [unfold get_vocab_size; rewrite Htoks; reflexivity |]].
    + unfold compute_background_log_frequency, sbind, slift, sret,
        json_load_open, float_tensor, get_vocab_size.
      rewrite Hfile, Htoks. reflexivity.
    + intros i token Htok. unfold get_token_from_index in Htok.
      rewrite Htoks in Htok. discriminate.
Qed.

(** C6: when the file is there, the call opens it once and returns a
    vector with one entry per index of the vocabulary; the entry of a
    token is the logarithm of its count in the file, and [log(1e-12)] for
    the four special tokens and for a token the file does not hold. *)
Theorem background_log_frequency_entries
    (path : string) (vocab : Vocabulary) (vocab_namespace : string)
    (fs : host) (counts : gmap string R) :
  files fs !! path = Some counts ->
  exists v,
    compute_background_log_frequency path vocab vocab_namespace fs
    = (Ok v, Host (files fs) (opened fs ++ [path]) (uninitialised fs)) /\
    length v = get_vocab_size vocab vocab_namespace /\
    forall i token,
      get_token_from_index vocab i vocab_namespace = Ok token ->
      v !! i = Some (if is_special token then Finite (ln 1e-12)
                     else match counts !! token with
                          | Some c => torch_log c
                          | None => Finite (ln 1e-12)
                          end).
Proof.
  intros Hfile.
  destruct (background_log_frequency_any path vocab vocab_namespace fs counts Hfile)
    as (ltf & Hrun & Hlen & Hset).
  exists (map torch_log ltf). split; [exact Hrun |].
  split; [rewrite length_map; exact Hlen |].
  intros i token Htok. rewrite list_lookup_fmap, (Hset i token Htok).
  cbn [fmap option_fmap option_map].
  unfold expected_entry. f_equal.
  destruct (is_special token); [apply torch_log_default |].
  destruct (counts !! token); [reflexivity | apply torch_log_default].
Qed.

Lemma background_log_frequency_entries_witness :
  exists v,
    compute_background_log_frequency "counts.json"
      {| index_to_token := {["tokens" := ["@@PADDING@@"; "cat"; "dog"]]} |}
      "tokens"
      (Host {["counts.json" := {["cat" := 3%R]}]} [] (fun _ => 0%R))
    = (Ok v, Host {["counts.json" := {["cat" := 3%R]}]}
                        ([] ++ ["counts.json"]) (fun _ => 0%R)) /\
    length v = 3.
Proof.
  destruct (background_log_frequency_entries "counts.json"
              {| index_to_token := {["tokens" := ["@@PADDING@@"; "cat"; "dog"]]} |}
              "tokens"
              (Host {["counts.json" := {["cat" := 3%R]}]} [] (fun _ => 0%R))
              {["cat" := 3%R]})
    as (v & Hrun & Hlen & _).
  - reflexivity.
  - exists v. split; [exact Hrun | exact Hlen].
Defined.

(** C5, as the code has it: a token of the vocabulary that the file does
    not hold raises nothing; the call returns and the entry of that token
    is [log(1e-12)]. *)
Theorem missing_token_gets_default
    (path : string) (vocab : Vocabulary) (vocab_namespace : string)
    (fs : host) (counts : gmap string R) (i : nat) (token : string) :
  files fs !! path = Some counts ->
  get_token_from_index vocab i vocab_namespace = Ok token ->
  counts !! token = None ->
  exists v,
    fst (compute_background_log_frequency path vocab vocab_namespace fs) = Ok v /\
    v !! i = Some (Finite (ln 1e-12)).
Proof.
  intros Hfile Htok Hmiss.
  destruct (background_log_frequency_any path vocab vocab_namespace fs counts Hfile)
    as (ltf & Hrun & _ & Hset).
  exists (map torch_log ltf). rewrite Hrun. split; [reflexivity |].
  rewrite list_lookup_fmap, (Hset i token Htok).
  cbn [fmap option_fmap option_map]. f_equal.
  unfold expected_entry. rewrite Hmiss.
  destruct (is_special token); apply torch_log_default.
Qed.

Lemma missing_token_gets_default_witness :
  exists v,
    fst (compute_background_log_frequency "counts.json"
           {| index_to_token := {["tokens" := ["cat"; "dog"]]} |} "tokens"
           (Host {["counts.json" := {["cat" := 3%R]}]} [] (fun _ => 0%R)))
    = Ok v /\
    v !! 1 = Some (Finite (ln 1e-12)).
Proof.
  apply (missing_token_gets_default "counts.json"
           {| index_to_token := {["tokens" := ["cat"; "dog"]]} |} "tokens"
           (Host {["counts.json" := {["cat" := 3%R]}]} [] (fun _ => 0%R))
           {["cat" := 3%R]} 1 "dog"); reflexivity.
Defined.

(** C5 fails as stated: with the token "dog" in the vocabulary and not in
    the file, the call returns a vector and raises no [KeyError]. *)
Lemma missing_token_not_raised :
  fst (compute_background_log_frequency "counts.json"
         {| index_to_token := {["tokens" := ["cat"; "dog"]]} |} "tokens"
         (Host {["counts.json" := {["cat" := 3%R]}]} [] (fun _ => 0%R)))
  = Ok [torch_log 3; torch_log 1e-12] /\
  fst (compute_background_log_frequency "counts.json"
         {| index_to_token := {["tokens" := ["cat"; "dog"]]} |} "tokens"
         (Host {["counts.json" := {["cat" := 3%R]}]} [] (fun _ => 0%R)))
  <> Raise KeyError.
Proof.
  assert (Hrun :
    fst (compute_background_log_frequency "counts.json"
           {| index_to_token := {["tokens" := ["cat"; "dog"]]} |} "tokens"
           (Host {["counts.json" := {["cat" := 3%R]}]} [] (fun _ => 0%R)))
    = Ok [torch_log 3; torch_log 1e-12]) by reflexivity.
  rewrite Hrun. split; [reflexivity | discriminate].
Qed.

(** ** The state that the helpers reach *)

Lemma get_token_from_index_lt (vocab : Vocabulary) (vocab_namespace : string)
    (i : nat) :
  i < get_vocab_size vocab vocab_namespace ->
  exists token, get_token_from_index vocab i vocab_namespace = Ok token.
Proof.
  unfold get_vocab_size, get_token_from_index.
  destruct (index_to_token vocab !! vocab_namespace) as [toks |];
    cbn [default mbind option_bind length]; [| lia].
  intros Hi. destruct (lookup_lt_is_Some_2 toks i Hi) as [token Htok].
  exists token. rewrite Htok. reflexivity.
Qed.

(** The result is the same on two hosts whose files agree: what the
    fresh tensor held and what was opened before do not show. *)
Lemma background_log_frequency_same_files
    (path : string) (vocab : Vocabulary) (vocab_namespace : string)
    (fs fs' : host) :
  files fs = files fs' ->
  fst (compute_background_log_frequency path vocab vocab_namespace fs)
  = fst (compute_background_log_frequency path vocab vocab_namespace fs') /\
  files (snd (compute_background_log_frequency path vocab vocab_namespace fs))
  = files fs.
Proof.
  intros Hfiles.
  destruct (files fs !! path) as [counts |] eqn:Hfile.
  - assert (Hfile' : files fs' !! path = Some counts) by (rewrite <- Hfiles; exact Hfile).
    destruct (background_log_frequency_any path vocab vocab_namespace fs counts Hfile)
      as (ltf & Hrun & Hlen & Hset).
    destruct (background_log_frequency_any path vocab vocab_namespace fs' counts Hfile')
      as (ltf' & Hrun' & Hlen' & Hset').
    rewrite Hrun, Hrun'. cbn [fst snd files]. split; [| reflexivity].
    do 2 f_equal. apply list_eq. intros i.
    destruct (decide (i < get_vocab_size vocab vocab_namespace)) as [Hi | Hi].
    + destruct (get_token_from_index_lt vocab vocab_namespace i Hi) as [token Htok].
      rewrite (Hset i token Htok), (Hset' i token Htok). reflexivity.
    + rewrite !lookup_ge_None_2 by lia. reflexivity.
  - assert (Hfile' : files fs' !! path = None) by (rewrite <- Hfiles; exact Hfile).
    unfold compute_background_log_frequency, sbind, json_load_open.
    rewrite Hfile, Hfile'. split; reflexivity.
Qed.

(** C8, as the code has it: the helpers are not all stateless.  On a
    batch of more than two rows and with [num_sam >= 1], a call of
    [check_dispersion] draws from numpy's global generator and leaves it
    advanced, by two draws at least for every sample when it returns;
    [sample] with "greedy" leaves torch's generator where
    [torch.multinomial] left it; [compute_background_log_frequency]
    reads the file, returns the same result whenever the files are the
    same and leaves them unchanged. *)
Theorem helpers_shared_state :
  (forall (fuel : nat) (on_cpu : bool) (num_sam : Z) (w : world),
      2 < length (vecs w) ->
      (0 < num_sam)%Z ->
      drawn w < drawn (snd (check_dispersion fuel on_cpu num_sam w)) /\
      (forall d, fst (check_dispersion fuel on_cpu num_sam w) = Ok d ->
                 drawn w + 2 * Z.to_nat num_sam
                 <= drawn (snd (check_dispersion fuel on_cpu num_sam w)))) /\
  (forall (generator : Type)
          (multinomial : list (list R) -> nat -> stateful generator tensor)
          (dist : list (list R)) (g : generator),
      snd (sample generator multinomial dist "greedy" g)
      = snd (multinomial (map softmax dist) 1 g)) /\
  (forall (path : string) (vocab : Vocabulary) (vocab_namespace : string)
          (fs fs' : host),
      files fs = files fs' ->
      fst (compute_background_log_frequency path vocab vocab_namespace fs)
      = fst (compute_background_log_frequency path vocab vocab_namespace fs') /\
      files (snd (compute_background_log_frequency path vocab vocab_namespace fs))
      = files fs).
Proof.
  split; [| split].
  - intros fuel on_cpu num_sam w Hsize Hsam.
    apply (proj2 (check_dispersion_advances fuel on_cpu num_sam w Hsize Hsam)).
  - intros generator multinomial dist g. unfold sample, sbind.
    cbn [String.eqb Ascii.eqb Bool.eqb].
    destruct (multinomial (map softmax dist) 1 g) as [[t | e |] g']; reflexivity.
  - apply background_log_frequency_same_files.
Qed.

Lemma helpers_shared_state_witness :
  drawn example_world < drawn (snd (check_dispersion 1 false 1 example_world)) /\
  fst (compute_background_log_frequency "counts.json"
         {| index_to_token := {["tokens" := ["cat"; "dog"]]} |} "tokens"
         (Host {["counts.json" := {["cat" := 3%R]}]} [] (fun _ => 0%R)))
  = fst (compute_background_log_frequency "counts.json"
           {| index_to_token := {["tokens" := ["cat"; "dog"]]} |} "tokens"
           (Host {["counts.json" := {["cat" := 3%R]}]} ["counts.json"] (fun _ => 7%R))).
Proof.
  destruct helpers_shared_state as (Hdraw & _ & Hfile). split.
  - apply (Hdraw 1 false 1%Z example_world); [simpl; lia | lia].
  - apply (Hfile "counts.json"
             {| index_to_token := {["tokens" := ["cat"; "dog"]]} |} "tokens"
             (Host {["counts.json" := {["cat" := 3%R]}]} [] (fun _ => 0%R))
             (Host {["counts.json" := {["cat" := 3%R]}]} ["counts.json"] (fun _ => 7%R))).
    reflexivity.
Defined.

(** * Further properties of the helpers *)

(** ** [schedule] *)

Section ScheduleMore.
#[local] Open Scope R_scope.

Lemma logistic_complement (u : R) :
  1 / (1 + exp (- u)) + 1 / (1 + exp u) = 1.
Proof.
  rewrite exp_Ropp. pose proof (exp_pos u) as Hu.
  field. split; lra.
Qed.

Lemma logistic_range (u : R) : 0 <= 1 / (1 + exp u) <= 1.
Proof.
  pose proof (exp_pos u) as Hu.
  assert (Hinv : 0 < / (1 + exp u)) by (apply Rinv_0_lt_compat; lra).
  assert (Hone : (1 + exp u) * / (1 + exp u) = 1) by (apply Rinv_r; lra).
  unfold Rdiv. rewrite Rmult_1_l. split; [lra | nra].
Qed.

End ScheduleMore.

(** X23: the sigmoid and the reverse sigmoid weights of a batch add up to 1. *)
Theorem schedule_sigmoids_complement (batch_num : Z) :
  (schedule batch_num "sigmoid" + schedule batch_num "reverse_sigmoid" = 1)%R.
Proof.
  rewrite schedule_sigmoid, schedule_reverse_sigmoid.
  replace (- 0.0025 * (IZR batch_num - 2500))%R
    with (- (0.0025 * (IZR batch_num - 2500)))%R by lra.
  apply logistic_complement.
Qed.

(** X24: the two sigmoid weights stay between 0 and 1, end points
    included, at every batch number; the linear weight is
    [batch_num / 2500] below batch 2500, negative before batch 0, and
    exactly 1 from batch 2500 on. *)
Theorem schedule_range (batch_num : Z) :
  (0 <= schedule batch_num "sigmoid" <= 1)%R /\
  (0 <= schedule batch_num "reverse_sigmoid" <= 1)%R /\
  ((batch_num < 2500)%Z ->
   schedule batch_num "linear" = (IZR batch_num / 2500)%R /\
   (schedule batch_num "linear" < 1)%R) /\
  ((batch_num < 0)%Z -> (schedule batch_num "linear" < 0)%R) /\
  ((2500 <= batch_num)%Z -> schedule batch_num "linear" = 1%R).
Proof.
  split; [rewrite schedule_sigmoid; apply logistic_range |].
  split; [rewrite schedule_reverse_sigmoid; apply logistic_range |].
  rewrite schedule_linear. split; [| split].
  - intros Hlt. apply IZR_lt in Hlt.
    rewrite Rmin_right by lra. split; [reflexivity | lra].
  - intros Hlt. apply IZR_lt in Hlt. rewrite Rmin_right by lra. lra.
  - intros Hle. apply IZR_le in Hle. apply Rmin_left. lra.
Qed.

Lemma schedule_range_witness :
  schedule (-5) "linear" = (IZR (-5) / 2500)%R /\
  (schedule (-5) "linear" < 0)%R /\
  schedule 3000 "linear" = 1%R.
Proof.
  destruct (schedule_range (-5)) as (_ & _ & Hbelow & Hneg & _).
  destruct (schedule_range 3000) as (_ & _ & _ & _ & Habove).
  split; [apply Hbelow; lia | split; [apply Hneg; lia | apply Habove; lia]].
Defined.

(** X25: an annealing type that is none of the four names is not refused: the
    weight is 0.01 at every batch number. *)
Theorem schedule_unknown_type (batch_num : Z) (anneal_type : string) :
  anneal_type <> "linear" ->
  anneal_type <> "sigmoid" ->
  anneal_type <> "constant" ->
  anneal_type <> "reverse_sigmoid" ->
  schedule batch_num anneal_type = 0.01%R.
Proof.
  intros H1 H2 H3 H4. unfold schedule.
  destruct (String.eqb_spec anneal_type "linear"); [contradiction |].
  destruct (String.eqb_spec anneal_type "sigmoid"); [contradiction |].
  destruct (String.eqb_spec anneal_type "constant"); [contradiction |].
  destruct (String.eqb_spec anneal_type "reverse_sigmoid"); [contradiction |].
  reflexivity.
Qed.

Lemma schedule_unknown_type_witness : schedule 100 "Sigmoid" = 0.01%R.
Proof.
  apply (schedule_unknown_type 100 "Sigmoid"); discriminate.
Defined.

(** ** [one_hot] and [log_standard_categorical] *)

Section CategoricalMore.
#[local] Open Scope R_scope.

Lemma sum_R_scale (c : R) (p : list R) :
  sum_R (zip_with Rmult p (replicate (length p) c)) = sum_R p * c.
Proof.
  induction p as [| x p IH]; [simpl; lra |].
  cbn [length replicate zip_with sum_R foldr].
  fold (sum_R (zip_with Rmult p (replicate (length p) c))). fold (sum_R p).
  rewrite IH. lra.
Qed.

End CategoricalMore.

(** X21: on any vector the function is the sum of the entries times
    [log(1/k + 1e-8)]: it is linear in [p], and on every vector of [k]
    entries that sum to 1 it takes the value it has on a one-hot vector. *)
Theorem log_standard_categorical_linear (p : list R) :
  log_standard_categorical p
  = (sum_R p * ln (1 / INR (length p) + 1e-8))%R.
Proof.
  unfold log_standard_categorical.
  rewrite softmax_ones, map_replicate. apply sum_R_scale.
Qed.

Lemma one_hot_row_outside (idxs : list Z) (k : nat) (d : nat) (i : Z) :
  idxs !! d = Some i ->
  ~ (0 <= i < Z.of_nat k)%Z ->
  one_hot idxs k !! d = Some (replicate k 0%R).
Proof.
  intros Hd Hout. unfold one_hot, arange.
  rewrite list_lookup_fmap, Hd. cbn [fmap option_fmap option_map]. f_equal.
  apply list_eq. intros j.
  destruct (decide (j < k)%nat) as [Hlt | Hge].
  - rewrite !list_lookup_fmap, lookup_seq_lt by lia. cbn.
    replace (i =? Z.of_nat j)%Z with false
      by (symmetry; apply Z.eqb_neq; lia).
    symmetry. apply lookup_replicate_2. exact Hlt.
  - rewrite !lookup_ge_None_2;
      [reflexivity | rewrite length_replicate; lia
      | rewrite !length_map, length_seq; lia].
Qed.

(** X20: [one_hot] refuses no index: every row has [new_dim_size] entries, the
    row of an index inside the dimension is one-hot with its 1 at the
    index, and the row of a negative index or of one beyond the dimension
    is all zeros. *)
Theorem one_hot_rows (idxs : list Z) (new_dim_size : nat) :
  length (one_hot idxs new_dim_size) = length idxs /\
  forall (d : nat) (i : Z),
    idxs !! d = Some i ->
    exists row,
      one_hot idxs new_dim_size !! d = Some row /\
      length row = new_dim_size /\
      ((0 <= i < Z.of_nat new_dim_size)%Z ->
       row !! Z.to_nat i = Some 1%R /\
       forall j, j <> Z.to_nat i -> (j < new_dim_size)%nat -> row !! j = Some 0%R) /\
      (~ (0 <= i < Z.of_nat new_dim_size)%Z ->
       row = replicate new_dim_size 0%R).
Proof.
  split; [unfold one_hot; apply length_map |].
  intros d i Hd.
  assert (Hrow : one_hot idxs new_dim_size !! d
                 = Some (map (fun j => if (i =? j)%Z then 1%R else 0%R)
                             (arange new_dim_size))).
  { unfold one_hot. rewrite list_lookup_fmap, Hd. reflexivity. }
  eexists. split; [exact Hrow |].
  split; [unfold arange; rewrite !length_map, length_seq; reflexivity |]. split.
  - intros Hi. unfold arange. split.
    + rewrite !list_lookup_fmap, lookup_seq_lt by lia. cbn.
      replace (i =? Z.of_nat (Z.to_nat i))%Z with true
        by (symmetry; apply Z.eqb_eq; lia).
      reflexivity.
    + intros j Hj Hlt.
      rewrite !list_lookup_fmap, lookup_seq_lt by lia. cbn.
      replace (i =? Z.of_nat j)%Z with false
        by (symmetry; apply Z.eqb_neq; lia).
      reflexivity.
  - intros Hout.
    pose proof (one_hot_row_outside idxs new_dim_size d i Hd Hout) as Hzero.
    rewrite Hrow in Hzero. injection Hzero as ->. reflexivity.
Qed.

Lemma one_hot_rows_witness :
  exists row,
    one_hot [2; 7; -1]%Z 3 !! 1 = Some row /\
    length row = 3 /\
    row = replicate 3 0%R.
Proof.
  destruct (proj2 (one_hot_rows [2; 7; -1]%Z 3) 1 7%Z eq_refl)
    as (row & Hrow & Hlen & _ & Hout).
  exists row. split; [exact Hrow |]. split; [exact Hlen |].
  apply Hout. simpl. lia.
Defined.

(** X22: composed with [one_hot]: the row of an index inside the dimension
    gives [log(1/k + 1e-8)], the row of an index outside gives 0. *)
Theorem log_standard_categorical_of_one_hot
    (idxs : list Z) (k : nat) (d : nat) (i : Z) (row : list R) :
  idxs !! d = Some i ->
  one_hot idxs k !! d = Some row ->
  log_standard_categorical row
  = if ((0 <=? i) && (i <? Z.of_nat k))%Z
    then ln (1 / INR k + 1e-8)
    else 0%R.
Proof.
  intros Hd Hrow. unfold log_standard_categorical.
  rewrite softmax_ones, map_replicate.
  destruct ((0 <=? i) && (i <? Z.of_nat k))%Z eqn:Hrange.
  - apply andb_prop in Hrange as [H0 Hk].
    apply Z.leb_le in H0. apply Z.ltb_lt in Hk.
    destruct (one_hot_row_is_one_hot idxs k d i row Hd (conj H0 Hk) Hrow)
      as [[j [Hone Hzero]] Hlen].
    rewrite (sum_R_one_hot _ row j Hone Hzero), Hlen. reflexivity.
  - assert (Hout : ~ (0 <= i < Z.of_nat k)%Z).
    { intros [H0 Hk]. apply Z.leb_le in H0. apply Z.ltb_lt in Hk.
      rewrite H0, Hk in Hrange. discriminate. }
    rewrite (one_hot_row_outside idxs k d i Hd Hout) in Hrow.
    injection Hrow as <-.
    rewrite sum_R_scale, sum_R_replicate. lra.
Qed.

Lemma log_standard_categorical_of_one_hot_witness :
  log_standard_categorical [0%R; 0%R; 0%R]
  = if ((0 <=? 5) && (5 <? Z.of_nat 3))%Z
    then ln (1 / INR 3 + 1e-8)
    else 0%R.
Proof.
  apply (log_standard_categorical_of_one_hot [2; 5]%Z 3 1 5 [0%R; 0%R; 0%R]);
    reflexivity.
Defined.

(** ** [interpolate] *)

Section InterpolateMore.
#[local] Open Scope R_scope.

(** The loop of indexed stores, on an array that has more rows than there
    are pairs: the rows beyond the pairs stay as they were. *)
Lemma store_rows_tail (num : nat) (ps : list (R * R)) (tail : list (list R)) :
  forall pre rest : list (list R),
    length rest = length ps ->
    fold_left
      (fun acc '(dim, (s, e)) => <[dim := linspace s e num]> acc)
      (zip (seq (length pre) (length ps)) ps) (pre ++ rest ++ tail)
    = pre ++ map (fun '(s, e) => linspace s e num) ps ++ tail.
Proof.
  induction ps as [| [s e] ps IH]; intros pre rest Hlen.
  - destruct rest; [reflexivity | discriminate].
  - destruct rest as [| r rest]; [discriminate |].
    simpl in Hlen. injection Hlen as Hlen.
    cbn [length seq zip zip_with fold_left app map].
    rewrite insert_app_r_alt by lia.
    rewrite Nat.sub_diag. cbn [insert list_insert].
    specialize (IH (pre ++ [linspace s e num]) rest Hlen).
    rewrite length_app, Nat.add_1_r in IH. cbn [length] in IH.
    rewrite <- app_assoc in IH. cbn [app] in IH.
    rewrite IH, <- app_assoc. reflexivity.
Qed.

(** The array before the transposition, for vectors of any two lengths. *)
Lemma interpolate_any_lengths (start end_ : list R) (steps : Z) :
  (0 <= steps + 2)%Z ->
  interpolate start end_ steps
  = Ok (transpose (Z.to_nat (steps + 2))
          (map (fun '(s, e) => linspace s e (Z.to_nat (steps + 2)))
               (zip start end_)
           ++ replicate (length start - length end_)
                        (replicate (Z.to_nat (steps + 2)) 0))).
Proof.
  intros Hsteps. unfold interpolate, enumerate.
  replace (steps + 2 <? 0)%Z with false by (symmetry; apply Z.ltb_ge; lia).
  do 2 f_equal.
  set (zrow := replicate (Z.to_nat (steps + 2)) 0).
  assert (Hsplit : replicate (length start) zrow
                   = replicate (length (zip start end_)) zrow
                     ++ replicate (length start - length end_) zrow).
  { rewrite <- replicate_add. f_equal. rewrite length_zip. lia. }
  rewrite Hsplit.
  apply (store_rows_tail _ (zip start end_) _ []).
  apply length_replicate.
Qed.

Lemma linspace_single (s e : R) : linspace s e 1 = [0 * (e - s) + s].
Proof. reflexivity. Qed.

(** The rows of the result, in closed form, for vectors of one length. *)
Lemma interpolate_closed_form (start end_ : list R) (steps : Z) :
  length start = length end_ -> (0 <= steps)%Z ->
  interpolate start end_ steps
  = Ok (map (fun i : nat =>
               map (fun '(s, e) =>
                      s + INR i * ((e - s) / INR (Z.to_nat (steps + 2) - 1)))
                   (zip start end_))
            (seq 0 (Z.to_nat (steps + 2)))).
Proof.
  intros Hlen Hsteps. rewrite interpolate_rows by assumption.
  f_equal. unfold transpose. apply map_ext_in. intros i Hi.
  apply in_seq in Hi.
  apply interpolate_row. intros s e. apply linspace_lookup; lia.
Qed.

Lemma map_zip_swap {A B : Type} (f g : A * A -> B) (xs ys : list A) :
  (forall x y, f (y, x) = g (x, y)) ->
  map f (zip ys xs) = map g (zip xs ys).
Proof.
  intros Hfg. revert ys. induction xs as [| x xs IH]; intros [| y ys];
    try reflexivity.
  cbn [zip zip_with map]. rewrite Hfg, IH. reflexivity.
Qed.

Lemma map_zip_diag {A B : Type} (f : A * A -> B) (xs : list A) :
  map f (zip xs xs) = map (fun x => f (x, x)) xs.
Proof.
  induction xs as [| x xs IH]; [reflexivity |].
  cbn [zip zip_with map]. f_equal. exact IH.
Qed.

Lemma map_const_seq {A : Type} (x : A) (a n : nat) :
  map (fun _ => x) (seq a n) = replicate n x.
Proof.
  revert a. induction n as [| n IH]; intros a; [reflexivity |].
  cbn [seq map replicate]. f_equal. apply IH.
Qed.

End InterpolateMore.

(** X26: fewer than zero steps: [steps = -1] gives the single row [start]
    (for [end] at least as long as [start]), [steps = -2] gives an array
    with no row, and anything below is refused by [np.zeros]. *)
Theorem interpolate_negative_steps (start end_ : list R) (steps : Z) :
  ((steps < -2)%Z -> interpolate start end_ steps = Raise ValueError) /\
  (steps = (-2)%Z -> interpolate start end_ steps = Ok []) /\
  (steps = (-1)%Z -> length start <= length end_ ->
   interpolate start end_ steps = Ok [start]).
Proof.
  split; [| split].
  - intros Hlt. unfold interpolate.
    replace (steps + 2 <? 0)%Z with true by (symmetry; apply Z.ltb_lt; lia).
    reflexivity.
  - intros ->. reflexivity.
  - intros -> Hlen. rewrite interpolate_any_lengths by lia.
    change (Z.to_nat (-1 + 2)) with 1%nat.
    replace (length start - length end_)%nat with 0%nat by lia.
    cbn [replicate]. rewrite app_nil_r.
    unfold transpose. cbn [seq map]. do 2 f_equal.
    rewrite map_map.
    rewrite <- (fst_zip start end_) at 2 by lia.
    apply map_ext. intros [s e]. rewrite linspace_single. cbn [nth fst].
    lra.
Qed.

Lemma interpolate_negative_steps_witness :
  interpolate [1%R; 2%R] [3%R; 4%R] (-3) = Raise ValueError /\
  interpolate [1%R; 2%R] [3%R; 4%R] (-2) = Ok [] /\
  interpolate [1%R; 2%R] [3%R; 4%R] (-1) = Ok [[1%R; 2%R]].
Proof.
  split; [| split].
  - apply (proj1 (interpolate_negative_steps [1%R; 2%R] [3%R; 4%R] (-3))). lia.
  - apply (proj1 (proj2 (interpolate_negative_steps [1%R; 2%R] [3%R; 4%R] (-2)))).
    reflexivity.
  - apply (proj2 (proj2 (interpolate_negative_steps [1%R; 2%R] [3%R; 4%R] (-1))));
      [reflexivity | simpl; lia].
Defined.

(** X27: vectors of two lengths are not refused: the result always has as
    many columns as [start] has entries, and a column for which [end] has
    no entry holds 0 in every row. *)
Theorem interpolate_unequal_lengths (start end_ : list R) (steps : Z) :
  (0 <= steps)%Z ->
  exists m,
    interpolate start end_ steps = Ok m /\
    length m = Z.to_nat (steps + 2) /\
    (forall row, row ∈ m -> length row = length start) /\
    (forall i d : nat,
        (i < Z.to_nat (steps + 2))%nat ->
        (length end_ <= d < length start)%nat ->
        m !! i ≫= (fun row => row !! d) = Some 0%R).
Proof.
  intros Hsteps. rewrite interpolate_any_lengths by lia.
  set (num := Z.to_nat (steps + 2)).
  set (rows := map (fun '(s, e) => linspace s e num) (zip start end_)).
  assert (Hrows : length rows = length (zip start end_))
    by (subst rows; apply length_map).
  rewrite length_zip in Hrows.
  eexists. split; [reflexivity |]. split; [| split].
  - unfold transpose. rewrite length_map, length_seq. reflexivity.
  - intros row Hin. unfold transpose in Hin.
    apply list_elem_of_fmap in Hin as [j [-> _]].
    rewrite length_map, length_app, length_replicate, Hrows. lia.
  - intros i d Hi Hd. rewrite transpose_lookup by exact Hi.
    cbn [mbind option_bind]. rewrite list_lookup_fmap.
    rewrite lookup_app_r by lia.
    rewrite lookup_replicate_2 by lia. cbn [fmap option_fmap option_map].
    f_equal. apply nth_lookup_Some with (d := 0%R).
    apply lookup_replicate_2. exact Hi.
Qed.

Lemma interpolate_unequal_lengths_witness :
  exists m,
    interpolate [1%R; 2%R; 3%R] [5%R] 1 = Ok m /\
    length m = 3 /\
    m !! 1 ≫= (fun row => row !! 2) = Some 0%R.
Proof.
  destruct (interpolate_unequal_lengths [1%R; 2%R; 3%R] [5%R] 1)
    as (m & Hm & Hlen & _ & Hzero); [lia |].
  exists m. split; [exact Hm |]. split; [exact Hlen |].
  apply Hzero; simpl; lia.
Defined.

(** X28: swapping the two ends reverses the order of the rows. *)
Theorem interpolate_reverse (start end_ : list R) (steps : Z) :
  length start = length end_ ->
  (0 <= steps)%Z ->
  exists m,
    interpolate start end_ steps = Ok m /\
    interpolate end_ start steps = Ok (reverse m).
Proof.
  intros Hlen Hsteps.
  rewrite (interpolate_closed_form start end_ steps Hlen Hsteps).
  rewrite (interpolate_closed_form end_ start steps (eq_sym Hlen) Hsteps).
  set (num := Z.to_nat (steps + 2)).
  assert (Hnum : (2 <= num)%nat) by (subst num; lia).
  eexists. split; [reflexivity |]. f_equal.
  apply list_eq. intros i.
  destruct (decide (i < num)%nat) as [Hi | Hi].
  - rewrite reverse_lookup by (rewrite length_map, length_seq; exact Hi).
    rewrite length_map, length_seq.
    rewrite !list_lookup_fmap, !lookup_seq_lt by lia.
    cbn [fmap option_fmap option_map Nat.add]. f_equal.
    apply map_zip_swap. intros s e.
    rewrite (minus_INR num (S i)) by lia.
    rewrite (minus_INR num 1) by lia.
    rewrite !S_INR. change (INR 0) with 0%R.
    assert (Hd : (2 <= INR num)%R) by (apply (le_INR 2); exact Hnum).
    field. lra.
  - rewrite !lookup_ge_None_2;
      [reflexivity
      | rewrite length_reverse, length_map, length_seq; lia
      | rewrite length_map, length_seq; lia].
Qed.

Lemma interpolate_reverse_witness :
  exists m,
    interpolate [0%R; 1%R] [2%R; 5%R] 1 = Ok m /\
    interpolate [2%R; 5%R] [0%R; 1%R] 1 = Ok (reverse m).
Proof.
  apply (interpolate_reverse [0%R; 1%R] [2%R; 5%R] 1); [reflexivity | lia].
Defined.

(** X29: between a vector and itself every row is that vector. *)
Theorem interpolate_constant (start : list R) (steps : Z) :
  (0 <= steps)%Z ->
  interpolate start start steps = Ok (replicate (Z.to_nat (steps + 2)) start).
Proof.
  intros Hsteps.
  rewrite (interpolate_closed_form start start steps eq_refl Hsteps).
  f_equal. rewrite <- (map_const_seq start 0).
  apply map_ext. intros i. rewrite map_zip_diag.
  transitivity (map (fun x : R => x) start); [| apply map_id].
  apply map_ext. intros s. unfold Rdiv. ring.
Qed.

Lemma interpolate_constant_witness :
  interpolate [4%R; 7%R] [4%R; 7%R] 2 = Ok (replicate (Z.to_nat (2 + 2)) [4%R; 7%R]).
Proof. apply (interpolate_constant [4%R; 7%R] 2). lia. Defined.

(** ** [compute_background_log_frequency] *)

(** X12: when the file of word counts is not there the call raises
    [FileNotFoundError] before the vocabulary is looked at, and nothing is
    recorded as opened. *)
Theorem background_log_frequency_missing_file
    (path : string) (vocab : Vocabulary) (vocab_namespace : string) (fs : host) :
  files fs !! path = None ->
  compute_background_log_frequency path vocab vocab_namespace fs
  = (Raise FileNotFoundError, fs).
Proof.
  intros Hfile. unfold compute_background_log_frequency, sbind, json_load_open.
  rewrite Hfile. reflexivity.
Qed.

Lemma background_log_frequency_missing_file_witness :
  compute_background_log_frequency "counts.json"
    {| index_to_token := {["tokens" := ["cat"]]} |} "tokens"
    (Host ∅ [] (fun _ => 0%R))
  = (Raise FileNotFoundError, Host ∅ [] (fun _ => 0%R)).
Proof.
  apply (background_log_frequency_missing_file "counts.json"
           {| index_to_token := {["tokens" := ["cat"]]} |} "tokens"
           (Host ∅ [] (fun _ => 0%R))).
  reflexivity.
Defined.

(** X13: the entry of a token that is not special and has a count in the file
    is a finite logarithm only for a positive count: a count of 0 gives
    minus infinity and a negative count gives NaN, without an error. *)
Theorem background_log_frequency_count_sign
    (path : string) (vocab : Vocabulary) (vocab_namespace : string)
    (fs : host) (counts : gmap string R) (i : nat) (token : string) (c : R) :
  files fs !! path = Some counts ->
  get_token_from_index vocab i vocab_namespace = Ok token ->
  is_special token = false ->
  counts !! token = Some c ->
  exists v,
    fst (compute_background_log_frequency path vocab vocab_namespace fs) = Ok v /\
    ((0 < c)%R -> v !! i = Some (Finite (ln c))) /\
    (c = 0%R -> v !! i = Some NegInf) /\
    ((c < 0)%R -> v !! i = Some NaN).
Proof.
  intros Hfile Htok Hspecial Hc.
  destruct (background_log_frequency_any path vocab vocab_namespace fs counts Hfile)
    as (ltf & Hrun & _ & Hset).
  exists (map torch_log ltf). rewrite Hrun. split; [reflexivity |].
  assert (Hentry : map torch_log ltf !! i = Some (torch_log c)).
  { rewrite list_lookup_fmap, (Hset i token Htok).
    unfold expected_entry. rewrite Hspecial, Hc. reflexivity. }
  rewrite Hentry. unfold torch_log.
  split; [| split]; intros Hsign; f_equal.
  - destruct (Rlt_dec 0 c); [reflexivity | contradiction].
  - destruct (Rlt_dec 0 c); [lra |].
    destruct (Req_dec_T c 0); [reflexivity | contradiction].
  - destruct (Rlt_dec 0 c); [lra |].
    destruct (Req_dec_T c 0); [lra | reflexivity].
Qed.

Lemma background_log_frequency_count_sign_witness :
  exists v,
    fst (compute_background_log_frequency "counts.json"
           {| index_to_token := {["tokens" := ["cat"; "dog"]]} |} "tokens"
           (Host {["counts.json" := {["cat" := 3%R; "dog" := 0%R]}]} []
                 (fun _ => 0%R)))
    = Ok v /\
    v !! 1 = Some NegInf.
Proof.
  destruct (background_log_frequency_count_sign "counts.json"
              {| index_to_token := {["tokens" := ["cat"; "dog"]]} |} "tokens"
              (Host {["counts.json" := {["cat" := 3%R; "dog" := 0%R]}]} []
                    (fun _ => 0%R))
              {["cat" := 3%R; "dog" := 0%R]} 1 "dog" 0%R)
    as (v & Hv & _ & Hzero & _); try reflexivity.
  exists v. split; [exact Hv | apply Hzero; reflexivity].
Defined.

(** ** [sample] *)

(** X11: with "greedy", a batch of one distribution gives a tensor of rank 0
    and a batch of any other size gives a vector with one index per
    distribution: [squeeze] drops the sample dimension and, for one row,
    the batch dimension too. *)
Theorem sample_greedy_shape
    (generator : Type)
    (multinomial : list (list R) -> nat -> stateful generator tensor)
    (dist : list (list R)) (g g' : generator) (indices : list Z) :
  multinomial (map softmax dist) 1 g
  = (Ok (Tensor [length dist; 1] indices), g') ->
  sample generator multinomial dist "greedy" g
  = (Ok (Tensor (if length dist =? 1 then [] else [length dist]) indices), g').
Proof.
  intros Hdraw.
  rewrite (sample_greedy generator multinomial dist g g' _ Hdraw).
  rewrite squeeze_positions. reflexivity.
Qed.

Lemma sample_greedy_shape_witness :
  sample unit
    (fun d n g => (Ok (Tensor [length d; n] (replicate (length d * n) 0%Z)), g))
    [[1%R; 2%R]] "greedy" tt
  = (Ok (Tensor [] [0%Z]), tt).
Proof.
  apply (sample_greedy_shape unit
           (fun d n g => (Ok (Tensor [length d; n] (replicate (length d * n) 0%Z)), g))
           [[1%R; 2%R]] tt tt [0%Z]).
  reflexivity.
Defined.

(** ** [check_dispersion] *)

Section DispersionMore.

Lemma check_dispersion_large (fuel : nat) (on_cpu : bool) (num_sam : Z) (w : world) :
  2 < length (vecs w) ->
  check_dispersion fuel on_cpu num_sam w
  = sbind (sample_pairs fuel on_cpu (Z.to_nat num_sam) (AccInt 0))
      (fun cos_sim =>
         match cos_sim with
         | AccInt z =>
             if (num_sam =? 0)%Z then sraise ZeroDivisionError
             else sret (PyFloat (IZR z / IZR num_sam))
         | AccArray xs => sret (NdArray (map (fun x => (x / IZR num_sam)%R) xs))
         end) w.
Proof.
  intros Hsize. unfold check_dispersion.
  unfold batch_size at 1. unfold sbind at 1.
  replace (Z.of_nat (length (vecs w)) <=? 2)%Z with false
    by (symmetry; apply Z.leb_gt; lia).
  reflexivity.
Qed.

Lemma check_dispersion_small (fuel : nat) (on_cpu : bool) (num_sam : Z) (w : world) :
  length (vecs w) <= 2 ->
  check_dispersion fuel on_cpu num_sam w = (Ok (TorchTensor [0%R]), w).
Proof.
  intros Hsize. unfold check_dispersion, sbind, batch_size.
  replace (Z.of_nat (length (vecs w)) <=? 2)%Z with true
    by (symmetry; apply Z.leb_le; lia).
  reflexivity.
Qed.

(** The end of the call changes nothing more. *)
Lemma dispersion_result_state (num_sam : Z) (acc : accumulator) (w w' : world)
    (r : outcome dispersion) :
  match acc with
  | AccInt z =>
      if (num_sam =? 0)%Z then sraise ZeroDivisionError
      else sret (PyFloat (IZR z / IZR num_sam))
  | AccArray xs => sret (NdArray (map (fun x => (x / IZR num_sam)%R) xs))
  end w = (r, w') ->
  w' = w.
Proof.
  destruct acc; [destruct (num_sam =? 0)%Z |]; intros [= _ <-]; reflexivity.
Qed.

Lemma cos_into_frame (on_cpu : bool) (idx1 idx2 : Z) (w w' : world)
    (r : outcome (list R)) :
  (0 <= idx2 < Z.of_nat (length (vecs w)) - 1)%Z ->
  cos_into on_cpu idx1 idx2 w = (r, w') ->
  (on_cpu = false -> vecs w' = vecs w) /\
  vecs w' !! (length (vecs w) - 1) = vecs w !! (length (vecs w) - 1).
Proof.
  intros Hidx. unfold cos_into.
  destruct (vecs w !! Z.to_nat idx1), (vecs w !! Z.to_nat idx2);
    try (intros [= _ <-]; split; reflexivity).
  destruct on_cpu; intros [= _ <-]; cbn [vecs].
  - split; [discriminate |]. apply list_lookup_insert_ne. lia.
  - split; reflexivity.
Qed.

(** The loop never reaches the last row, and writes to the tensor on the
    CPU only. *)
Lemma sample_pairs_frame (fuel : nat) (on_cpu : bool) (iterations : nat) :
  forall (cos_sim : accumulator) (w w' : world) (r : outcome accumulator),
    2 < length (vecs w) ->
    sample_pairs fuel on_cpu iterations cos_sim w = (r, w') ->
    length (vecs w') = length (vecs w) /\
    (on_cpu = false -> vecs w' = vecs w) /\
    vecs w' !! (length (vecs w) - 1) = vecs w !! (length (vecs w) - 1).
Proof.
  induction iterations as [| iterations IH]; intros cos_sim w w' r Hsize Hrun.
  - injection Hrun as <- <-. repeat split.
  - cbn [sample_pairs] in Hrun.
    assert (Hhigh : (0 < Z.of_nat (length (vecs w)) - 1)%Z) by lia.
    unfold batch_size at 1 in Hrun. unfold sbind at 1 in Hrun.
    apply sbind_inv in Hrun as [(idx1 & w1 & Hdraw & Hrun) | [(e & Hdraw & ->) | (Hdraw & ->)]];
      apply (randint_inv _ _ _ _ Hhigh) in Hdraw as [-> (v & Hv & Hrange)];
      try (repeat split; reflexivity).
    unfold batch_size at 1 in Hrun. unfold sbind at 1 in Hrun. cbn [vecs] in Hrun.
    apply sbind_inv in Hrun as [(idx2 & w2 & Hre & Hrun) | [(e & Hre & ->) | (Hre & ->)]];
      apply (resample_inv _ _ _ Hhigh) in Hre as (_ & Hv2 & _ & Hok2);
      cbn [vecs] in Hv2;
      try (rewrite Hv2; repeat split; reflexivity).
    destruct (Hok2 idx2 eq_refl) as [_ Hidx2].
    apply sbind_inv in Hrun as [(c & w3 & Hcos & Hrun) | [(e & Hcos & ->) | (Hcos & ->)]];
      pose proof (cos_into_inv _ _ _ _ _ _ Hcos) as (_ & _ & Hl3);
      apply cos_into_frame in Hcos as (Hc3 & Hlast3);
      rewrite ?Hv2 in *; try exact Hidx2;
      try (split; [exact Hl3 | split; [exact Hc3 | exact Hlast3]]).
    apply IH in Hrun as (Hl4 & Hc4 & Hlast4); [| rewrite Hl3; exact Hsize].
    rewrite Hl3 in Hl4, Hlast4.
    split; [exact Hl4 | split].
    + intros Hdev. rewrite (Hc4 Hdev). apply Hc3, Hdev.
    + rewrite Hlast4. exact Hlast3.
Qed.

(** A generator that keeps producing the same number keeps the inner
    loop drawing. *)
Lemma resample_constant (c high : Z) (fuel : nat) :
  (0 < high)%Z ->
  forall w : world,
    (forall k, tape w k = c) ->
    fst (resample fuel (c mod high) high w) = Timeout.
Proof.
  intros Hhigh. induction fuel as [| fuel IH]; intros w Htape; [reflexivity |].
  cbn [resample]. unfold sbind, randint.
  replace (high <=? 0)%Z with false by (symmetry; apply Z.leb_gt; lia).
  rewrite Htape, Z.sub_0_r, Z.add_0_l, Z.eqb_refl.
  apply IH. intros k. cbn [tape]. apply Htape.
Qed.

End DispersionMore.

(** X7: with more than two rows and [num_sam <= 0] nothing is drawn and the
    tensor is left alone: [num_sam = 0] raises [ZeroDivisionError], a
    negative [num_sam] returns the float [0 / num_sam]. *)
Theorem check_dispersion_no_samples
    (fuel : nat) (on_cpu : bool) (num_sam : Z) (w : world) :
  2 < length (vecs w) ->
  (num_sam <= 0)%Z ->
  check_dispersion fuel on_cpu num_sam w
  = (if (num_sam =? 0)%Z then Raise ZeroDivisionError
     else Ok (PyFloat (0 / IZR num_sam)), w).
Proof.
  intros Hsize Hsam. rewrite check_dispersion_large by exact Hsize.
  replace (Z.to_nat num_sam) with 0 by lia.
  unfold sbind. cbn [sample_pairs sret].
  destruct (num_sam =? 0)%Z; reflexivity.
Qed.

Lemma check_dispersion_no_samples_witness :
  check_dispersion 0 true 0 example_world
  = (if (0 =? 0)%Z then Raise ZeroDivisionError
     else Ok (PyFloat (0 / IZR 0)), example_world).
Proof.
  apply (check_dispersion_no_samples 0 true 0 example_world); [simpl; lia | lia].
Defined.

(** X8: whatever the call draws and however it ends, the tensor keeps its
    number of rows, its last row is never overwritten (the indices are
    drawn below [size - 1]), and a tensor that is not on the CPU is left
    as it was. *)
Theorem check_dispersion_frame
    (fuel : nat) (on_cpu : bool) (num_sam : Z) (w : world) :
  length (vecs (snd (check_dispersion fuel on_cpu num_sam w))) = length (vecs w) /\
  (on_cpu = false -> vecs (snd (check_dispersion fuel on_cpu num_sam w)) = vecs w) /\
  vecs (snd (check_dispersion fuel on_cpu num_sam w)) !! (length (vecs w) - 1)
  = vecs w !! (length (vecs w) - 1).
Proof.
  destruct (decide (length (vecs w) <= 2)) as [Hsmall | Hlarge].
  - rewrite check_dispersion_small by exact Hsmall. repeat split.
  - assert (Hsize : 2 < length (vecs w)) by lia.
    destruct (check_dispersion fuel on_cpu num_sam w) as [r w'] eqn:Hrun.
    rewrite check_dispersion_large in Hrun by exact Hsize. cbn [snd].
    apply sbind_inv in Hrun
      as [(acc & w1 & Hloop & Hend) | [(e & Hloop & ->) | (Hloop & ->)]];
      try (apply (sample_pairs_frame _ _ _ _ _ _ _ Hsize Hloop)).
    apply dispersion_result_state in Hend as ->.
    apply (sample_pairs_frame _ _ _ _ _ _ _ Hsize Hloop).
Qed.

Lemma check_dispersion_frame_witness :
  vecs (snd (check_dispersion 1 false 1 example_world)) = vecs example_world /\
  vecs (snd (check_dispersion 1 true 1 example_world)) !! 2
  = vecs example_world !! 2.
Proof.
  split.
  - apply (proj1 (proj2 (check_dispersion_frame 1 false 1 example_world))).
    reflexivity.
  - apply (proj2 (proj2 (check_dispersion_frame 1 true 1 example_world))).
Defined.

(** X9: the [while True] loop has no bound of its own: on more than two rows
    and with [num_sam >= 1], a generator that keeps producing the same
    number never lets the call return, whatever number of rounds is
    allowed. *)
Theorem check_dispersion_may_not_return
    (fuel : nat) (on_cpu : bool) (num_sam : Z) (w : world) (c : Z) :
  2 < length (vecs w) ->
  (0 < num_sam)%Z ->
  (forall k, tape w k = c) ->
  fst (check_dispersion fuel on_cpu num_sam w) = Timeout.
Proof.
  intros Hsize Hsam Htape. rewrite check_dispersion_large by exact Hsize.
  destruct (Z.to_nat num_sam) as [| iterations] eqn:Hiter; [lia |].
  assert (Hhigh : (0 < Z.of_nat (length (vecs w)) - 1)%Z) by lia.
  unfold sbind at 1. cbn [sample_pairs].
  unfold batch_size at 1. unfold sbind at 1.
  unfold randint at 1. unfold sbind at 1.
  replace (Z.of_nat (length (vecs w)) - 1 <=? 0)%Z with false
    by (symmetry; apply Z.leb_gt; lia).
  unfold batch_size at 1. unfold sbind at 1. cbn [vecs].
  rewrite Htape, Z.sub_0_r, Z.add_0_l.
  pose proof (resample_constant c (Z.of_nat (length (vecs w)) - 1) fuel Hhigh
                (World (tape w) (S (drawn w)) (vecs w))) as Hloop.
  unfold sbind at 1.
  destruct (resample fuel _ _ _) as [[idx2 | e |] w2];
    cbn [fst] in Hloop;
    try (specialize (Hloop (fun k => Htape k)); discriminate).
  reflexivity.
Qed.

Lemma check_dispersion_may_not_return_witness :
  fst (check_dispersion 1000 false 10
         (World (fun _ => 7%Z) 0 [[0%R]; [2%R]; [5%R]])) = Timeout.
Proof.
  apply (check_dispersion_may_not_return 1000 false 10
           (World (fun _ => 7%Z) 0 [[0%R]; [2%R]; [5%R]]) 7%Z);
    [simpl; lia | lia | reflexivity].
Defined.

Section DispersionValue.
#[local] Open Scope R_scope.

Lemma cos_into_rows (dim : nat) (on_cpu : bool) (idx1 idx2 : Z)
    (w w' : world) (c : list R) :
  Forall (fun row => length row = dim) (vecs w) ->
  cos_into on_cpu idx1 idx2 w = (Ok c, w') ->
  length c = dim /\
  Forall (fun x => -1 <= x <= 1) c /\
  Forall (fun row => length row = dim) (vecs w').
Proof.
  intros Hrows. unfold cos_into.
  destruct (vecs w !! Z.to_nat idx1) as [a |] eqn:Ha; [| discriminate].
  destruct (vecs w !! Z.to_nat idx2) as [b |] eqn:Hb; [| discriminate].
  assert (Hlen : length (map cos a) = dim).
  { rewrite length_map. rewrite Forall_forall in Hrows.
    apply Hrows. apply list_elem_of_lookup. eauto. }
  assert (Hcos : Forall (fun x => -1 <= x <= 1) (map cos a)).
  { apply Forall_forall. intros x Hx.
    apply list_elem_of_fmap in Hx as [y [-> _]]. apply COS_bound. }
  destruct on_cpu; intros [= <- <-]; cbn [vecs];
    (split; [exact Hlen | split; [exact Hcos |]]); [| exact Hrows].
  apply Forall_insert; assumption.
Qed.

Lemma map_by_index {A : Type} (g : R -> A) (a : list R) :
  map g a = map (fun j => g (nth j a 0)) (seq 0 (length a)).
Proof.
  apply list_eq. intros j. rewrite !list_lookup_fmap.
  destruct (decide (j < length a)%nat) as [Hlt | Hge].
  - rewrite lookup_seq_lt by exact Hlt.
    destruct (lookup_lt_is_Some_2 a j Hlt) as [x Hx].
    rewrite Hx. cbn [fmap option_fmap option_map]. f_equal. f_equal.
    symmetry. apply nth_lookup_Some. exact Hx.
  - rewrite lookup_ge_None_2 by lia.
    rewrite lookup_seq_ge by lia. reflexivity.
Qed.

Lemma zip_with_map_same {A B C D : Type} (h : B -> C -> D) (f : A -> B)
    (g : A -> C) (l : list A) :
  zip_with h (map f l) (map g l) = map (fun x => h (f x) (g x)) l.
Proof.
  induction l as [| x l IH]; [reflexivity |].
  cbn [map zip_with]. f_equal. exact IH.
Qed.

(** One more round: the cosines of [a] are added to the accumulator. *)
Lemma accumulate_cosines (dim : nat) (args : list (list R)) (acc : accumulator)
    (a : list R) :
  accumulated dim args acc ->
  length a = dim ->
  accumulated dim (a :: args) (accumulate acc (map cos a)).
Proof.
  intros Hacc Hlen. rewrite (map_by_index cos a), Hlen.
  destruct acc as [z | xs]; cbn [accumulate accumulated] in *.
  - destruct Hacc as [-> ->]. split; [discriminate |].
    unfold cosine_sums. rewrite map_map. apply map_ext. intros j.
    cbn [map sum_R foldr]. lra.
  - destruct Hacc as [Hne ->]. split; [discriminate |].
    unfold cosine_sums. rewrite zip_with_map_same. apply map_ext. intros j.
    cbn [map sum_R foldr].
    fold (sum_R (map (fun a0 => cos (nth j a0 0)) args)). lra.
Qed.

(** What a round reads and what it leaves in the tensor. *)
Lemma cos_into_read (on_cpu : bool) (idx1 idx2 : Z) (w w' : world) (c : list R) :
  cos_into on_cpu idx1 idx2 w = (Ok c, w') ->
  exists a,
    vecs w !! Z.to_nat idx1 = Some a /\ c = map cos a /\
    vecs w' = if on_cpu then <[Z.to_nat idx2 := map cos a]> (vecs w)
              else vecs w.
Proof.
  unfold cos_into.
  destruct (vecs w !! Z.to_nat idx1) as [a |]; [| discriminate].
  destruct (vecs w !! Z.to_nat idx2) as [b |]; [| discriminate].
  intros [= <- <-]. exists a. destruct on_cpu; repeat split.
Qed.

(** The loop reads rows below the last one, as they stand when it reads
    them, and adds their cosines. *)
Lemma sample_pairs_cosines (dim : nat) (rows : list (list R)) (fuel : nat)
    (on_cpu : bool) (iterations : nat) :
  (2 < length rows)%nat ->
  let met (a : list R) :=
    read_row rows a /\
    (on_cpu = false ->
     exists i, (i < length rows - 1)%nat /\ rows !! i = Some a) in
  forall (args : list (list R)) (cos_sim acc : accumulator) (w w' : world),
    length (vecs w) = length rows ->
    Forall (fun row => length row = dim) (vecs w) ->
    (forall i a, (i < length rows - 1)%nat -> vecs w !! i = Some a -> met a) ->
    Forall met args ->
    accumulated dim args cos_sim ->
    sample_pairs fuel on_cpu iterations cos_sim w = (Ok acc, w') ->
    exists args',
      length args' = (length args + iterations)%nat /\
      Forall met args' /\
      accumulated dim args' acc.
Proof.
  intros Hsize met.
  induction iterations as [| iterations IH];
    intros args cos_sim acc w w' Hrows Hdim Hinv Hargs Hacc Hrun.
  - injection Hrun as <- <-. exists args.
    split; [lia | split; assumption].
  - cbn [sample_pairs] in Hrun.
    assert (Hhigh : (0 < Z.of_nat (length (vecs w)) - 1)%Z) by lia.
    unfold batch_size at 1 in Hrun. unfold sbind at 1 in Hrun.
    apply sbind_inv in Hrun
      as [(idx1 & w1 & Hdraw & Hrun) | [(e & _ & [=]) | (_ & [=])]].
    apply (randint_inv _ _ _ _ Hhigh) in Hdraw as [-> (v & [= <-] & Hidx1)].
    unfold batch_size at 1 in Hrun. unfold sbind at 1 in Hrun.
    cbn [vecs] in Hrun.
    apply sbind_inv in Hrun
      as [(idx2 & w2 & Hre & Hrun) | [(e & _ & [=]) | (_ & [=])]].
    apply (resample_inv _ _ _ Hhigh) in Hre as (_ & Hv2 & _ & _).
    cbn [vecs] in Hv2.
    apply sbind_inv in Hrun
      as [(c & w3 & Hcos & Hrun) | [(e & _ & [=]) | (_ & [=])]].
    pose proof (cos_into_inv _ _ _ _ _ _ Hcos) as (_ & _ & Hl3).
    pose proof (cos_into_rows dim _ _ _ _ _ _
                  ltac:(rewrite Hv2; exact Hdim) Hcos) as (_ & _ & Hdim3).
    apply cos_into_read in Hcos as (a & Ha & -> & Hv3).
    rewrite Hv2 in Ha, Hv3, Hl3.
    assert (Hmet : met a) by (apply (Hinv (Z.to_nat idx1)); [lia | exact Ha]).
    assert (Hlen : length a = dim).
    { rewrite Forall_forall in Hdim. apply Hdim.
      apply list_elem_of_lookup. eauto. }
    destruct (IH (a :: args) (accumulate cos_sim (map cos a)) acc w3 w')
      as (args' & Hlen' & Hargs' & Hacc').
    + rewrite Hl3. exact Hrows.
    + exact Hdim3.
    + intros i b Hi Hb. rewrite Hv3 in Hb. destruct on_cpu.
      * apply list_lookup_insert_Some in Hb as [(_ & <- & _) | (_ & Hb)].
        -- split; [apply read_cosines, Hmet | discriminate].
        -- apply (Hinv i b Hi Hb).
      * apply (Hinv i b Hi Hb).
    + constructor; assumption.
    + apply accumulate_cosines; assumption.
    + exact Hrun.
    + exists args'. cbn [length] in Hlen'.
      split; [lia | split; assumption].
Qed.

Lemma sum_of_cosines_bounded (j : nat) (args : list (list R)) :
  - INR (length args)
  <= sum_R (map (fun a => cos (nth j a 0)) args)
  <= INR (length args).
Proof.
  induction args as [| a args IH]; [cbn; lra |].
  cbn [map sum_R foldr]. fold (sum_R (map (fun a => cos (nth j a 0)) args)).
  change (length (a :: args)) with (S (length args)). rewrite S_INR.
  pose proof (COS_bound (nth j a 0)). lra.
Qed.

(** X10: when the call returns on more than two rows with [num_sam >= 1],
    the result is the mean of the elementwise cosines of [num_sam]
    vectors: an array with one entry per dimension, every entry between
    -1 and 1, not one similarity.  Each of the vectors is a row of the
    tensor below the last one, as the round that drew it found it: a row
    of the tensor as passed when the tensor is not on the CPU, and
    otherwise possibly the cosines that an earlier round wrote back. *)
Theorem check_dispersion_mean_of_cosines (dim : nat) (fuel : nat) (on_cpu : bool)
    (num_sam : Z) (w : world) (d : dispersion) :
  (2 < length (vecs w))%nat ->
  (0 < num_sam)%Z ->
  Forall (fun row => length row = dim) (vecs w) ->
  fst (check_dispersion fuel on_cpu num_sam w) = Ok d ->
  exists args : list (list R),
    length args = Z.to_nat num_sam /\
    Forall (read_row (vecs w)) args /\
    (on_cpu = false ->
     Forall (fun a => exists i, (i < length (vecs w) - 1)%nat /\
                                vecs w !! i = Some a) args) /\
    d = NdArray (mean_of_cosines dim args num_sam) /\
    length (mean_of_cosines dim args num_sam) = dim /\
    Forall (fun x => -1 <= x <= 1) (mean_of_cosines dim args num_sam).
Proof.
  intros Hsize Hsam Hrows Hrun.
  rewrite check_dispersion_large in Hrun by exact Hsize.
  destruct (sbind _ _ w) as [r w'] eqn:Hbind. cbn [fst] in Hrun. subst r.
  apply sbind_inv in Hbind as [(acc & w1 & Hloop & Hend) | [(e & _ & [=]) | (_ & [=])]].
  apply (sample_pairs_cosines dim (vecs w) _ _ _ Hsize []) in Hloop
    as (args & Hlen & Hargs & Hacc);
    [| reflexivity | exact Hrows | | constructor | split; reflexivity].
  2:{ intros i a Hi Ha. split; [apply (read_original _ i a Hi Ha) | eauto]. }
  cbn [length Nat.add] in Hlen.
  destruct acc as [z | xs]; cbn [accumulated] in Hacc.
  { destruct Hacc as [_ ->]. cbn [length] in Hlen. lia. }
  destruct Hacc as [_ ->]. injection Hend as <- _.
  exists args. split; [exact Hlen |].
  split; [eapply Forall_impl; [exact Hargs | intros a Ha; apply Ha] |].
  split.
  { intros Hdev. eapply Forall_impl; [exact Hargs |].
    intros a Ha. apply Ha, Hdev. }
  split; [reflexivity |].
  split; [unfold mean_of_cosines, cosine_sums; rewrite !length_map, length_seq;
          reflexivity |].
  assert (Hn : INR (length args) = IZR num_sam).
  { rewrite Hlen, INR_IZR_INZ. f_equal. lia. }
  assert (Hpos : 0 < IZR num_sam) by (apply (IZR_lt 0); exact Hsam).
  assert (Hinv : 0 < / IZR num_sam) by (apply Rinv_0_lt_compat; exact Hpos).
  assert (Hone : IZR num_sam * / IZR num_sam = 1) by (apply Rinv_r; lra).
  apply Forall_forall. intros x Hx.
  unfold mean_of_cosines, cosine_sums in Hx. rewrite map_map in Hx.
  apply list_elem_of_fmap in Hx as [j [-> _]].
  pose proof (sum_of_cosines_bounded j args) as Hb. rewrite Hn in Hb.
  unfold Rdiv. split; nra.
Qed.

End DispersionValue.

Lemma check_dispersion_mean_of_cosines_witness :
  exists args : list (list R),
    length args = Z.to_nat 1 /\
    Forall (fun a => exists i, i < length (vecs example_world) - 1 /\
                               vecs example_world !! i = Some a) args /\
    fst (check_dispersion 1 false 1 example_world)
    = Ok (NdArray (mean_of_cosines 1 args 1)).
Proof.
  destruct (check_dispersion_mean_of_cosines 1 1 false 1 example_world
              (NdArray [((0 + cos 0) / 1)%R]))
    as (args & Hlen & _ & Hrows & Hd & _).
  - simpl. lia.
  - lia.
  - repeat constructor.
  - reflexivity.
  - exists args. split; [exact Hlen |]. split; [apply Hrows; reflexivity |].
    rewrite <- Hd. reflexivity.
Defined.

(** ** [split_instances] *)

Section SplitMore.

Lemma positions_from_all (P : Z -> bool) (flags : list Z) :
  forall a,
    (forall f, f ∈ flags -> P f = true) ->
    positions_from a P flags = seq a (length flags).
Proof.
  unfold positions_from.
  induction flags as [| f0 flags IH]; intros a Hall; [reflexivity |].
  cbn [length seq zip zip_with List.filter snd].
  rewrite (Hall f0) by left. cbn [map fst]. f_equal.
  apply IH. intros f Hf. apply Hall. now right.
Qed.

Lemma positions_from_none (P : Z -> bool) (flags : list Z) :
  forall a,
    (forall f, f ∈ flags -> P f = false) ->
    positions_from a P flags = [].
Proof.
  unfold positions_from.
  induction flags as [| f0 flags IH]; intros a Hnone; [reflexivity |].
  cbn [length seq zip zip_with List.filter snd].
  rewrite (Hnone f0) by left.
  apply IH. intros f Hf. apply Hnone. now right.
Qed.

Lemma positions_from_complement (P Q : Z -> bool) (flags : list Z) :
  (forall f, Q f = negb (P f)) ->
  forall a,
    length (positions_from a P flags) + length (positions_from a Q flags)
    = length flags.
Proof.
  intros HPQ. unfold positions_from.
  induction flags as [| f0 flags IH]; intros a; [reflexivity |].
  cbn [length seq zip zip_with List.filter snd].
  rewrite HPQ. specialize (IH (S a)).
  destruct (P f0); cbn [negb map length]; lia.
Qed.

Lemma positions_from_increasing (P : Z -> bool) (flags : list Z) :
  forall a j1 j2 i1 i2,
    j1 < j2 ->
    positions_from a P flags !! j1 = Some i1 ->
    positions_from a P flags !! j2 = Some i2 ->
    i1 < i2.
Proof.
  induction flags as [| f0 flags IH]; intros a j1 j2 i1 i2 Hj H1 H2;
    [discriminate |].
  pose proof (elem_of_positions_from P flags (S a)) as Hmem.
  unfold positions_from in *.
  cbn [length seq zip zip_with List.filter snd] in H1, H2.
  destruct (P f0); cbn [map fst] in H1, H2.
  - destruct j2 as [| j2]; [lia |]. cbn in H2.
    destruct j1 as [| j1].
    + injection H1 as <-.
      assert (Hin : i2 ∈ map fst (List.filter (fun p => P (snd p))
                                    (zip (seq (S a) (length flags)) flags)))
        by (apply list_elem_of_lookup; eauto).
      apply Hmem in Hin as [Hle _]. lia.
    + cbn in H1. apply (IH (S a) j1 j2); [lia | exact H1 | exact H2].
  - apply (IH (S a) j1 j2); assumption.
Qed.

(** The data of a tensor is the concatenation of its entries along the
    first dimension. *)
Lemma concat_chunks (w : nat) (n : nat) :
  forall (a : nat) (xs : list Z),
    length xs = (a + n) * w ->
    concat (map (chunk w xs) (seq a n)) = drop (a * w) xs.
Proof.
  induction n as [| n IH]; intros a xs Hlen.
  - cbn. symmetry. apply drop_ge. lia.
  - cbn [seq map concat]. rewrite (IH (S a)) by lia.
    unfold chunk. cbn [Nat.mul].
    replace (w + a * w) with (a * w + w) by lia.
    rewrite <- drop_drop. apply take_drop.
Qed.

Lemma gather_all (t : tensor) (r c : nat) :
  shape t = [r; c] ->
  length (data t) = r * c ->
  gather t (seq 0 r) = t.
Proof.
  intros Hshape Hdata. unfold gather. rewrite Hshape.
  cbn [tail numel foldr]. rewrite Nat.mul_1_r, length_seq.
  rewrite (concat_chunks c r 0) by (rewrite Hdata; lia).
  rewrite Nat.mul_0_l, drop_0. destruct t as [sh dt].
  cbn [shape data] in *. subst sh. reflexivity.
Qed.

(** The call on a batch whose tensors have rows for every flag. *)
Lemma split_instances_run
    (tokens : gmap string tensor) (is_labeled : list Z)
    (targets : option (gmap string tensor)) (label : option tensor)
    (all_tokens : tensor) (r c : nat) :
  tokens !! "tokens" = Some all_tokens ->
  shape all_tokens = [r; c] ->
  length is_labeled <= r ->
  (forall l, label = Some l -> exists r', shape l = [r'] /\ length is_labeled <= r') ->
  (forall tg, targets = Some tg ->
     exists tt r' c', tg !! "tokens" = Some tt /\ shape tt = [r'; c'] /\
                      length is_labeled <= r') ->
  split_instances tokens is_labeled targets label
  = match positions is_nonzero is_labeled, label with
    | _ :: _, None => Raise TypeError
    | li, _ =>
        Ok (instances_at li all_tokens
              (targets ≫= (fun tg => tg !! "tokens")) label,
            instances_at (positions is_zero is_labeled) all_tokens
              (targets ≫= (fun tg => tg !! "tokens")) None)
    end.
Proof.
  intros Htok Hshape Hrows Hlabel Htargets.
  set (li := positions is_nonzero is_labeled).
  set (ui := positions is_zero is_labeled).
  assert (Hweak : forall r' pos,
            length is_labeled <= r' ->
            Forall (fun i => i < length is_labeled) pos ->
            Forall (fun i => i < r') pos).
  { intros r' pos Hle Hpos. eapply Forall_impl; [exact Hpos |].
    intros i Hi. cbn beta in Hi |- *. lia. }
  pose proof (Hweak r li Hrows (positions_lt is_nonzero is_labeled)) as Hli.
  pose proof (Hweak r ui Hrows (positions_lt is_zero is_labeled)) as Hui.
  unfold split_instances.
  rewrite nonzero_positions, nonzero_of_zero_test, !squeeze_positions,
    !nelement_positions, !nonempty_length.
  fold li ui. unfold getitem. rewrite Htok.
  destruct (take_rows all_tokens li _ c Hshape Hli) as [lt [Hlt Hlt']].
  destruct (take_rows all_tokens ui _ c Hshape Hui) as [ut [Hut Hut']].
  cbv zeta. cbn [obind]. rewrite Hlt, Hut. cbn [obind]. rewrite Hlt', Hut'.
  unfold instances_at.
  destruct label as [l |].
  - destruct (Hlabel l eq_refl) as (r' & Hl & Hr').
    destruct (take_labels l li _ Hl
                (Hweak r' li Hr' (positions_lt is_nonzero is_labeled)))
      as [ll [Hll Hll']].
    rewrite Hll. cbn [obind]. rewrite Hll'.
    destruct targets as [tg |].
    + destruct (Htargets tg eq_refl) as (tt & r'' & c' & Htt & Hts & Hr'').
      destruct (take_rows tt li _ c' Hts
                  (Hweak r'' li Hr'' (positions_lt is_nonzero is_labeled)))
        as [x [Hx Hx']].
      destruct (take_rows tt ui _ c' Hts
                  (Hweak r'' ui Hr'' (positions_lt is_zero is_labeled)))
        as [y [Hy Hy']].
      cbn [mbind option_bind]. rewrite Htt. cbn [obind].
      rewrite Hx, Hy. cbn [obind]. rewrite Hx', Hy'.
      destruct li, ui; cbn [obind]; rewrite ?insert_empty; reflexivity.
    + destruct li, ui; cbn [obind]; rewrite ?insert_empty; reflexivity.
  - cbn [obind].
    destruct targets as [tg |].
    + destruct (Htargets tg eq_refl) as (tt & r'' & c' & Htt & Hts & Hr'').
      destruct (take_rows tt ui _ c' Hts
                  (Hweak r'' ui Hr'' (positions_lt is_zero is_labeled)))
        as [y [Hy Hy']].
      cbn [mbind option_bind]. rewrite Htt. cbn [obind].
      rewrite Hy. cbn [obind]. rewrite Hy'.
      destruct li, ui; cbn [obind]; rewrite ?insert_empty; reflexivity.
    + destruct li, ui; cbn [obind]; rewrite ?insert_empty; reflexivity.
Qed.

End SplitMore.

Section SplitCounts.

Lemma instance_count_instances_at (pos : list nat) (all_tokens : tensor)
    (all_targets label : option tensor) :
  instance_count (instances_at pos all_tokens all_targets label) = length pos.
Proof.
  unfold instance_count, instances_at.
  destruct pos as [| i pos]; [reflexivity |].
  destruct label, all_targets;
    rewrite ?lookup_insert_ne by discriminate;
    rewrite lookup_singleton_eq, lookup_singleton_eq; reflexivity.
Qed.

Lemma positions_nonempty (P : Z -> bool) (flags : list Z) (i : nat) (f : Z) :
  flags !! i = Some f -> P f = true -> positions P flags <> [].
Proof.
  intros Hf HP Hnil.
  assert (Hin : i ∈ positions P flags) by (apply elem_of_positions; eauto).
  rewrite Hnil in Hin. inversion Hin.
Qed.

(** A loop stops at the first element on which its body raises. *)
Lemma omap_raise {A B : Type} (f : A -> outcome B) (e : exn) (xs : list A) :
  (forall x, x ∈ xs -> (exists y, f x = Ok y) \/ f x = Raise e) ->
  (exists x, x ∈ xs /\ f x = Raise e) ->
  omap f xs = Raise e.
Proof.
  induction xs as [| x xs IH]; intros Hall [x0 [Hin Hx0]]; [inversion Hin |].
  cbn [omap]. destruct (Hall x) as [[y Hy] | Hraise]; [left | | ].
  - rewrite Hy. cbn [obind]. rewrite IH; [reflexivity | |].
    + intros x' Hx'. apply Hall. now right.
    + apply elem_of_cons in Hin as [-> | Hin]; [congruence |]. eauto.
  - rewrite Hraise. reflexivity.
Qed.

End SplitCounts.

(** X14: a batch in which no instance is labeled needs no label tensor: the
    labeled output is empty and the unlabeled output holds the whole
    token tensor. *)
Theorem split_instances_none_labeled
    (tokens : gmap string tensor) (is_labeled : list Z) (all_tokens : tensor)
    (c : nat) :
  tokens !! "tokens" = Some all_tokens ->
  shape all_tokens = [length is_labeled; c] ->
  length (data all_tokens) = length is_labeled * c ->
  is_labeled <> [] ->
  (forall f, f ∈ is_labeled -> f = 0%Z) ->
  split_instances tokens is_labeled None None
  = Ok (∅, {["tokens" := VDict {["tokens" := all_tokens]}]}).
Proof.
  intros Htok Hshape Hdata Hne Hzero.
  rewrite (split_instances_run tokens is_labeled None None all_tokens
             (length is_labeled) c Htok Hshape (le_n _));
    [| discriminate | discriminate].
  assert (Hli : positions is_nonzero is_labeled = []).
  { apply positions_from_none. intros f Hf. rewrite (Hzero f Hf). reflexivity. }
  assert (Hui : positions is_zero is_labeled = seq 0 (length is_labeled)).
  { apply positions_from_all. intros f Hf. rewrite (Hzero f Hf). reflexivity. }
  rewrite Hli, Hui. unfold instances_at at 1. do 2 f_equal.
  unfold instances_at. cbn [mbind option_bind].
  destruct is_labeled as [| f0 flags]; [congruence |].
  cbn [length seq]. change (0 :: seq 1 (length flags)) with (seq 0 (length (f0 :: flags))).
  rewrite (gather_all all_tokens _ c Hshape Hdata). reflexivity.
Qed.

Lemma split_instances_none_labeled_witness :
  split_instances {["tokens" := Tensor [2; 2] [1; 2; 3; 4]%Z]} [0; 0]%Z None None
  = Ok (∅, {["tokens" := VDict {["tokens" := Tensor [2; 2] [1; 2; 3; 4]%Z]}]}).
Proof.
  apply (split_instances_none_labeled
           {["tokens" := Tensor [2; 2] [1; 2; 3; 4]%Z]} [0; 0]%Z
           (Tensor [2; 2] [1; 2; 3; 4]%Z) 2); try reflexivity.
  - discriminate.
  - intros f Hf. repeat (apply elem_of_cons in Hf as [-> | Hf]; [reflexivity |]).
    inversion Hf.
Defined.

(** X15: without a label tensor, one labeled instance is enough for the call
    to raise [TypeError], whatever the rest of the batch is. *)
Theorem split_instances_label_required
    (tokens : gmap string tensor) (is_labeled : list Z)
    (targets : option (gmap string tensor)) (all_tokens : tensor)
    (r c i : nat) (f : Z) :
  tokens !! "tokens" = Some all_tokens ->
  shape all_tokens = [r; c] ->
  length is_labeled <= r ->
  (forall tg, targets = Some tg ->
     exists tt r' c', tg !! "tokens" = Some tt /\ shape tt = [r'; c'] /\
                      length is_labeled <= r') ->
  is_labeled !! i = Some f ->
  f <> 0%Z ->
  split_instances tokens is_labeled targets None = Raise TypeError.
Proof.
  intros Htok Hshape Hrows Htargets Hi Hf.
  rewrite (split_instances_run tokens is_labeled targets None all_tokens r c
             Htok Hshape Hrows); [| discriminate | exact Htargets].
  destruct (positions is_nonzero is_labeled) eqn:Hli; [| reflexivity].
  exfalso. apply (positions_nonempty is_nonzero is_labeled i f Hi); [| exact Hli].
  unfold is_nonzero. apply Bool.negb_true_iff, Z.eqb_neq, Hf.
Qed.

Lemma split_instances_label_required_witness :
  split_instances {["tokens" := Tensor [3; 1] [4; 5; 6]%Z]} [0; 0; 2]%Z None None
  = Raise TypeError.
Proof.
  apply (split_instances_label_required
           {["tokens" := Tensor [3; 1] [4; 5; 6]%Z]} [0; 0; 2]%Z None
           (Tensor [3; 1] [4; 5; 6]%Z) 3 1 2 2%Z);
    first [reflexivity | discriminate | simpl; lia].
Defined.

(** X16: the two outputs hold as many instances as there are flags: none is
    lost and none is doubled, and rows of the tensors beyond the flags
    are left out of both. *)
Theorem split_instances_counts
    (tokens : gmap string tensor) (is_labeled : list Z)
    (targets : option (gmap string tensor)) (label all_tokens : tensor)
    (r r' c : nat) :
  tokens !! "tokens" = Some all_tokens ->
  shape all_tokens = [r; c] ->
  length is_labeled <= r ->
  shape label = [r'] ->
  length is_labeled <= r' ->
  (forall tg, targets = Some tg ->
     exists tt r'' c', tg !! "tokens" = Some tt /\ shape tt = [r''; c'] /\
                       length is_labeled <= r'') ->
  exists lab unlab,
    split_instances tokens is_labeled targets (Some label) = Ok (lab, unlab) /\
    instance_count lab + instance_count unlab = length is_labeled.
Proof.
  intros Htok Hshape Hrows Hlabel Hrows' Htargets.
  rewrite (split_instances_run tokens is_labeled targets (Some label) all_tokens
             r c Htok Hshape Hrows); [| | exact Htargets].
  - assert (Hcount : length (positions is_nonzero is_labeled)
                     + length (positions is_zero is_labeled)
                     = length is_labeled).
    { unfold positions. apply positions_from_complement.
      intros f. unfold is_zero, is_nonzero. rewrite Bool.negb_involutive.
      reflexivity. }
    exists (instances_at (positions is_nonzero is_labeled) all_tokens
              (targets ≫= (fun tg => tg !! "tokens")) (Some label)),
           (instances_at (positions is_zero is_labeled) all_tokens
              (targets ≫= (fun tg => tg !! "tokens")) None).
    split.
    + destruct (positions is_nonzero is_labeled); reflexivity.
    + rewrite !instance_count_instances_at. exact Hcount.
  - intros l [= <-]. eauto.
Qed.

Lemma split_instances_counts_witness :
  exists lab unlab,
    split_instances {["tokens" := Tensor [4; 1] [4; 5; 6; 7]%Z]} [1; 0; 1]%Z
      None (Some (Tensor [4] [0; 1; 0; 1]%Z)) = Ok (lab, unlab) /\
    instance_count lab + instance_count unlab = 3.
Proof.
  apply (split_instances_counts
           {["tokens" := Tensor [4; 1] [4; 5; 6; 7]%Z]} [1; 0; 1]%Z None
           (Tensor [4] [0; 1; 0; 1]%Z) (Tensor [4; 1] [4; 5; 6; 7]%Z) 4 4 1);
    first [reflexivity | discriminate | simpl; lia].
Defined.

(** X17: inside each output the instances keep the order they have in the
    batch: the outputs hold the instances at two lists of positions that
    both increase. *)
Theorem split_instances_order
    (tokens : gmap string tensor) (is_labeled : list Z)
    (targets : option (gmap string tensor)) (label all_tokens : tensor)
    (r r' c : nat) :
  tokens !! "tokens" = Some all_tokens ->
  shape all_tokens = [r; c] ->
  length is_labeled <= r ->
  shape label = [r'] ->
  length is_labeled <= r' ->
  (forall tg, targets = Some tg ->
     exists tt r'' c', tg !! "tokens" = Some tt /\ shape tt = [r''; c'] /\
                       length is_labeled <= r'') ->
  exists li ui : list nat,
    split_instances tokens is_labeled targets (Some label)
    = Ok (instances_at li all_tokens
            (targets ≫= (fun tg => tg !! "tokens")) (Some label),
          instances_at ui all_tokens
            (targets ≫= (fun tg => tg !! "tokens")) None) /\
    (forall j1 j2 i1 i2, j1 < j2 ->
       li !! j1 = Some i1 -> li !! j2 = Some i2 -> i1 < i2) /\
    (forall j1 j2 i1 i2, j1 < j2 ->
       ui !! j1 = Some i1 -> ui !! j2 = Some i2 -> i1 < i2).
Proof.
  intros Htok Hshape Hrows Hlabel Hrows' Htargets.
  exists (positions is_nonzero is_labeled), (positions is_zero is_labeled).
  split; [| split].
  - rewrite (split_instances_run tokens is_labeled targets (Some label)
               all_tokens r c Htok Hshape Hrows); [| | exact Htargets].
    + destruct (positions is_nonzero is_labeled); reflexivity.
    + intros l [= <-]. eauto.
  - apply positions_from_increasing.
  - apply positions_from_increasing.
Qed.

Lemma split_instances_order_witness :
  exists li ui : list nat,
    split_instances {["tokens" := Tensor [3; 1] [4; 5; 6]%Z]} [1; 0; 1]%Z
      None (Some (Tensor [3] [0; 1; 0]%Z))
    = Ok (instances_at li (Tensor [3; 1] [4; 5; 6]%Z) None
            (Some (Tensor [3] [0; 1; 0]%Z)),
          instances_at ui (Tensor [3; 1] [4; 5; 6]%Z) None None) /\
    (forall j1 j2 i1 i2, j1 < j2 ->
       li !! j1 = Some i1 -> li !! j2 = Some i2 -> i1 < i2).
Proof.
  destruct (split_instances_order
              {["tokens" := Tensor [3; 1] [4; 5; 6]%Z]} [1; 0; 1]%Z None
              (Tensor [3] [0; 1; 0]%Z) (Tensor [3; 1] [4; 5; 6]%Z) 3 3 1)
    as (li & ui & Hrun & Hli & _);
    first [reflexivity | discriminate | simpl; lia | idtac].
  exists li, ui. split; [exact Hrun | exact Hli].
Defined.

(** X18: without a ["tokens"] entry in [tokens] the call raises [KeyError] as
    soon as the batch has an instance, labeled or not; on a batch with no
    instance it returns two empty dictionaries and looks nothing up. *)
Theorem split_instances_missing_tokens
    (tokens : gmap string tensor) (is_labeled : list Z)
    (targets : option (gmap string tensor)) (label : option tensor) :
  tokens !! "tokens" = None ->
  split_instances tokens is_labeled targets label
  = match is_labeled with
    | [] => Ok (∅, ∅)
    | _ => Raise KeyError
    end.
Proof.
  intros Htok. unfold split_instances.
  rewrite nonzero_positions, nonzero_of_zero_test, !squeeze_positions,
    !nelement_positions, !nonempty_length.
  unfold getitem. rewrite Htok. cbn [obind].
  pose proof (positions_from_complement is_nonzero is_zero is_labeled) as Hcount.
  specialize (Hcount (fun f => eq_sym (Bool.negb_involutive (f =? 0)%Z)) 0).
  fold (positions is_nonzero is_labeled) in Hcount.
  fold (positions is_zero is_labeled) in Hcount.
  destruct (positions is_nonzero is_labeled) as [| i li];
    destruct (positions is_zero is_labeled) as [| j ui];
    destruct is_labeled as [| f flags];
    cbn [length] in Hcount; try lia; reflexivity.
Qed.

Lemma split_instances_missing_tokens_witness :
  split_instances {["token" := Tensor [1; 1] [4]%Z]} [0]%Z None None
  = Raise KeyError.
Proof.
  apply (split_instances_missing_tokens
           {["token" := Tensor [1; 1] [4]%Z]} [0]%Z None None).
  reflexivity.
Defined.

(** X19: a labeled flag at a position for which the token tensor has no row
    is refused: the call raises [IndexError], the index error of the
    tensor, whatever the label and the targets are. *)
Theorem split_instances_flag_beyond_rows
    (tokens : gmap string tensor) (is_labeled : list Z)
    (targets : option (gmap string tensor)) (label : option tensor)
    (all_tokens : tensor) (r c i : nat) (f : Z) :
  tokens !! "tokens" = Some all_tokens ->
  shape all_tokens = [r; c] ->
  is_labeled !! i = Some f ->
  f <> 0%Z ->
  r <= i ->
  split_instances tokens is_labeled targets label = Raise IndexError.
Proof.
  intros Htok Hshape Hi Hf Hbeyond. unfold split_instances.
  rewrite nonzero_positions, squeeze_positions, nelement_positions,
    nonempty_length.
  assert (Hin : i ∈ positions is_nonzero is_labeled).
  { apply elem_of_positions. exists f. split; [exact Hi |].
    unfold is_nonzero. apply Bool.negb_true_iff, Z.eqb_neq, Hf. }
  destruct (positions is_nonzero is_labeled) as [| i0 li] eqn:Hli;
    [inversion Hin |].
  unfold getitem. rewrite Htok. cbn [obind].
  assert (Hraise : forall sh,
            index_rows all_tokens (Tensor sh (map Z.of_nat (i0 :: li)))
            = Raise IndexError).
  { intros sh. unfold index_rows, ndim, index_first. rewrite Hshape.
    cbn [length Nat.ltb Nat.leb data].
    rewrite (omap_raise _ IndexError); [reflexivity | |].
    - intros x Hx. cbn beta zeta.
      destruct ((0 <=? _)%Z && (_ <? _)%Z); eauto.
    - exists (Z.of_nat i). split; [apply list_elem_of_fmap; eauto |].
      cbn beta zeta.
      replace (Z.of_nat i <? 0)%Z with false by (symmetry; apply Z.ltb_ge; lia).
      replace (Z.of_nat i <? Z.of_nat r)%Z with false
        by (symmetry; apply Z.ltb_ge; lia).
      rewrite Bool.andb_false_r. reflexivity. }
  rewrite Hraise. reflexivity.
Qed.

Lemma split_instances_flag_beyond_rows_witness :
  split_instances {["tokens" := Tensor [2; 1] [4; 5]%Z]} [0; 0; 1]%Z None
    (Some (Tensor [3] [7; 8; 9]%Z))
  = Raise IndexError.
Proof.
  apply (split_instances_flag_beyond_rows
           {["tokens" := Tensor [2; 1] [4; 5]%Z]} [0; 0; 1]%Z None
           (Some (Tensor [3] [7; 8; 9]%Z)) (Tensor [2; 1] [4; 5]%Z) 2 1 2 1%Z);
    first [reflexivity | discriminate | simpl; lia].
Defined.

(** ** [compute_bow] *)

Section BowMore.
#[local] Open Scope Z_scope.

Lemma padding_select (document : list Z) :
  masked_select document
    (map byte (map (fun t => if t =? 0 then 0 else 1) document))
  = Ok (List.filter (fun t => negb (t =? 0)) document).
Proof.
  rewrite masked_select_same_length;
    [| rewrite !length_map; reflexivity | apply padding_mask_binary].
  rewrite masked_pick_padding. reflexivity.
Qed.

Lemma le_largest (input : list Z) (x : Z) :
  x ∈ input -> x <= foldr Z.max (-1) input.
Proof.
  induction input as [| y input IH]; intros Hin; [inversion Hin |].
  cbn [foldr]. apply elem_of_cons in Hin as [-> | Hin]; [lia |].
  specialize (IH Hin). lia.
Qed.

Lemma bincount_nonnegative (input : list Z) (minlength : Z) :
  0 <= minlength ->
  (forall x, x ∈ input -> 0 <= x) ->
  exists bins,
    bincount input minlength = Ok bins /\
    length bins
    = Z.to_nat (Z.max minlength (foldr Z.max (-1) input + 1)).
Proof.
  intros Hmin Hin. unfold bincount.
  replace (minlength <? 0) with false by (symmetry; apply Z.ltb_ge; lia).
  replace (existsb (fun x => x <? 0) input) with false.
  2:{ symmetry. apply Bool.not_true_is_false. intros Hex.
      apply existsb_exists in Hex as [x [Hx Hneg]].
      apply Z.ltb_lt in Hneg. apply list_elem_of_In in Hx.
      specialize (Hin x Hx). lia. }
  eexists. split; [reflexivity |].
  destruct (count_into_bins input
              (replicate (Z.to_nat (Z.max minlength (foldr Z.max (-1) input + 1))) 0))
    as [Hlen _].
  - intros x Hx. rewrite length_replicate.
    pose proof (le_largest input x Hx). specialize (Hin x Hx). lia.
  - cbn zeta in Hlen. rewrite Hlen. apply length_replicate.
Qed.

Lemma bincount_negative_entry (input : list Z) (minlength x : Z) :
  x ∈ input -> x < 0 -> bincount input minlength = Raise RuntimeError.
Proof.
  intros Hin Hneg. unfold bincount.
  destruct (minlength <? 0); [reflexivity |].
  replace (existsb (fun x => x <? 0) input) with true; [reflexivity |].
  symmetry. apply existsb_exists. exists x.
  split; [apply list_elem_of_In, Hin | apply Z.ltb_lt, Hneg].
Qed.

(** Whatever its arguments, the body of the loop returns or raises
    [RuntimeError]. *)
Lemma bow_vector_outcomes (vocab_size : Z) (stopword_indicator : option (list Z))
    (document doc_mask : list Z) :
  (exists row, bow_vector vocab_size stopword_indicator document doc_mask = Ok row)
  \/ bow_vector vocab_size stopword_indicator document doc_mask
     = Raise RuntimeError.
Proof.
  assert (Hselect : forall (A : Type) (xs : list A) (mask : list Z),
            (exists ys, masked_select xs mask = Ok ys)
            \/ masked_select xs mask = Raise RuntimeError).
  { intros A xs mask. unfold masked_select, select_by_mask.
    destruct (length xs =? length mask)%nat;
      [destruct (binary_mask mask); eauto |].
    destruct xs as [| x [| x' xs]], mask as [| m [| m' mask]];
      try destruct (binary_mask _); eauto. }
  unfold bow_vector.
  destruct (Hselect Z document (map byte doc_mask)) as [[sel ->] | ->];
    [| right; reflexivity].
  cbn [obind]. unfold bincount.
  destruct (vocab_size <? 0); [right; reflexivity |].
  destruct (existsb _ sel); [right; reflexivity |].
  cbn [obind]. destruct stopword_indicator as [indicator |]; [| eauto].
  destruct (Hselect R (map IZR
      (fold_left (fun bins x => alter Z.succ (Z.to_nat x) bins) sel
         (replicate (Z.to_nat (Z.max vocab_size (foldr Z.max (-1) sel + 1))) 0)))
      (map (fun s => byte (1 - byte s)) indicator)) as [[ys ->] | ->]; eauto.
Qed.

(** The sum of the bins after counting. *)
Lemma count_into_bins_sum (input : list Z) :
  forall bins : list Z,
    (forall x, x ∈ input -> 0 <= x /\ (Z.to_nat x < length bins)%nat) ->
    foldr Z.add 0
      (fold_left (fun bins x => alter Z.succ (Z.to_nat x) bins) input bins)
    = foldr Z.add 0 bins + Z.of_nat (length input).
Proof.
  assert (Hstep : forall (bins : list Z) (n : nat),
            (n < length bins)%nat ->
            foldr Z.add 0 (alter Z.succ n bins) = foldr Z.add 0 bins + 1).
  { induction bins as [| b bins IHb]; intros n Hn; [simpl in Hn; lia |].
    destruct n as [| n]; cbn [alter list_alter foldr].
    - lia.
    - cbn [length] in Hn.
      change (list_alter Z.succ n bins) with (alter Z.succ n bins).
      rewrite IHb by lia. lia. }
  induction input as [| x input IH]; intros bins Hin.
  - cbn. lia.
  - cbn [fold_left length]. rewrite IH.
    + rewrite Hstep by (apply Hin; left). lia.
    + intros y Hy. rewrite length_alter. apply Hin. now right.
Qed.

Lemma sum_R_IZR (zs : list Z) : sum_R (map IZR zs) = IZR (foldr Z.add 0 zs).
Proof.
  induction zs as [| z zs IH]; [reflexivity |].
  cbn [map sum_R foldr]. fold (sum_R (map IZR zs)).
  rewrite IH, plus_IZR. reflexivity.
Qed.

Lemma foldr_add_replicate (n : nat) : foldr Z.add 0 (replicate n 0) = 0.
Proof. induction n as [| n IH]; [reflexivity | cbn; exact IH]. Qed.

(** The loop over the documents, from what its body does on each. *)
Lemma compute_bow_rows (P : list Z -> list R -> Prop) (w : nat)
    (tokens : list (list Z)) (vocab_size : Z)
    (stopword_indicator : option (list Z)) :
  tokens <> [] ->
  (forall document, document ∈ tokens ->
     exists row,
       bow_vector vocab_size stopword_indicator document
         (map (fun t => if t =? 0 then 0 else 1) document) = Ok row /\
       length row = w /\ P document row) ->
  exists bow,
    compute_bow tokens vocab_size stopword_indicator = Ok bow /\
    Forall2 (fun document row => length row = w /\ P document row) tokens bow.
Proof.
  intros Hne Hbody.
  destruct (omap_Forall2
              (fun x => bow_vector vocab_size stopword_indicator (fst x) (snd x))
              (fun x row => length row = w /\ P (fst x) row)
              (zip tokens (get_text_field_mask tokens)))
    as [bow [Hbow HP]].
  { intros [document doc_mask] Hx. unfold get_text_field_mask in Hx.
    rewrite zip_with_mask in Hx.
    apply list_elem_of_fmap in Hx as [document' [[= -> ->] Hdoc]].
    destruct (Hbody document' Hdoc) as (row & Hrow & Hw & HPr). eauto. }
  unfold get_text_field_mask in HP. rewrite zip_with_mask in HP.
  apply Forall2_fmap_l in HP.
  exists bow. split; [| exact HP].
  unfold compute_bow. rewrite Hbow. cbn [obind].
  apply (cat_rows_same_width w).
  - intros ->. apply Forall2_length in HP. destruct tokens; [congruence | discriminate].
  - apply (Forall2_right _ _ _ _ (fun x y Hxy => proj1 Hxy) HP).
Qed.

End BowMore.

Section BowGeneral.
#[local] Open Scope Z_scope.

(** The body of the loop on a document whose tokens are not negative:
    the row is as wide as the largest index asks, its entries are the
    numbers of occurrences outside the padding, and they add up to the
    number of tokens outside the padding. *)
Lemma bow_vector_nonnegative (vocab_size : Z) (document : list Z) :
  0 <= vocab_size ->
  (forall t, t ∈ document -> 0 <= t) ->
  let doc_mask := map (fun t => if t =? 0 then 0 else 1) document in
  exists row,
    bow_vector vocab_size None document doc_mask = Ok row /\
    length row = bow_width vocab_size document /\
    sum_R row
    = INR (length (List.filter (fun t => negb (t =? 0)) document)) /\
    forall v, 0 <= v -> (Z.to_nat v < bow_width vocab_size document)%nat ->
      row !! Z.to_nat v = Some (INR (unmasked_occurrences v document doc_mask)).
Proof.
  intros Hsize Hnonneg doc_mask. subst doc_mask.
  unfold bow_vector. rewrite padding_select. cbn [obind].
  set (sel := List.filter (fun t => negb (t =? 0)) document).
  assert (Hsel : forall x, x ∈ sel -> 0 <= x).
  { intros x Hx. apply list_elem_of_In, filter_In in Hx as [Hx _].
    apply Hnonneg, list_elem_of_In, Hx. }
  unfold bincount.
  replace (vocab_size <? 0) with false by (symmetry; apply Z.ltb_ge; lia).
  replace (existsb (fun x => x <? 0) sel) with false.
  2:{ symmetry. apply Bool.not_true_is_false. intros Hex.
      apply existsb_exists in Hex as [x [Hx Hneg]].
      apply Z.ltb_lt in Hneg. apply list_elem_of_In in Hx.
      specialize (Hsel x Hx). lia. }
  cbn [obind].
  assert (Hw : Z.to_nat (Z.max vocab_size (foldr Z.max (-1) sel + 1))
               = bow_width vocab_size document) by reflexivity.
  rewrite Hw.
  assert (Hfit : forall x, x ∈ sel ->
            0 <= x /\ (Z.to_nat x < length (replicate (bow_width vocab_size document) 0%Z))%nat).
  { intros x Hx. rewrite length_replicate, <- Hw.
    pose proof (le_largest sel x Hx). specialize (Hsel x Hx). lia. }
  destruct (count_into_bins sel (replicate (bow_width vocab_size document) 0) Hfit)
    as [Hlen Hcount].
  cbn zeta in Hlen, Hcount. rewrite length_replicate in Hlen.
  eexists. split; [reflexivity |].
  split; [rewrite length_map; exact Hlen |]. split.
  - rewrite sum_R_IZR, (count_into_bins_sum sel _ Hfit), foldr_add_replicate.
    rewrite INR_IZR_INZ. f_equal.
  - intros v Hv Hlt. rewrite list_lookup_fmap.
    rewrite (Hcount v 0 Hv) by (apply lookup_replicate_2; exact Hlt).
    cbn [fmap option_fmap option_map]. f_equal.
    rewrite unmasked_occurrences_padding, INR_IZR_INZ. f_equal.
Qed.

Lemma cat_rows_mismatch {A : Type} (r r' : list A) (rest : list (list A)) :
  r' ∈ rest -> length r' <> length r ->
  cat_rows (r :: rest) = Raise RuntimeError.
Proof.
  intros Hin Hne. unfold cat_rows.
  replace (forallb (fun r' => (length r' =? length r)%nat) rest) with false;
    [reflexivity |].
  symmetry. apply Bool.not_true_is_false. intros Hall.
  rewrite forallb_forall in Hall.
  specialize (Hall r' (proj1 (list_elem_of_In _ _) Hin)).
  apply Nat.eqb_eq in Hall. contradiction.
Qed.

Lemma no_padding_among_selected (document : list Z) :
  List.filter (fun t => t =? 0) (List.filter (fun t => negb (t =? 0)) document) = [].
Proof.
  induction document as [| t document IH]; [reflexivity |].
  cbn [List.filter]. destruct (t =? 0) eqn:Ht; cbn [negb List.filter];
    [exact IH | rewrite Ht; exact IH].
Qed.

(** Under an indicator of 0 and 1, [1 - indicator.byte()] keeps the
    columns whose entry is 0. *)
Lemma masked_pick_kept {A : Type} (xs : list A) (indicator : list Z) :
  length xs = length indicator ->
  (forall s, s ∈ indicator -> s = 0 \/ s = 1) ->
  length (masked_pick xs (map (fun s => byte (1 - byte s)) indicator))
  = length (List.filter (fun s => s =? 0) indicator).
Proof.
  revert xs. induction indicator as [| s indicator IH]; intros [| x xs] Hlen Hbin;
    try discriminate; [reflexivity |].
  cbn [map masked_pick List.filter]. injection Hlen as Hlen.
  assert (Hrest : forall s', s' ∈ indicator -> s' = 0 \/ s' = 1)
    by (intros s' Hs'; apply Hbin; now right).
  specialize (IH xs Hlen Hrest).
  destruct (Hbin s) as [-> | ->]; [left | |].
  - change (byte (1 - byte 0) =? 0) with false. change (0 =? 0) with true.
    cbn [length]. rewrite IH. reflexivity.
  - change (byte (1 - byte 1) =? 0) with true. change (1 =? 0) with false.
    exact IH.
Qed.

Lemma masked_pick_all {A : Type} (xs : list A) (indicator : list Z) :
  length xs = length indicator ->
  (forall s, s ∈ indicator -> s = 0) ->
  masked_pick xs (map (fun s => byte (1 - byte s)) indicator) = xs.
Proof.
  revert xs. induction indicator as [| s indicator IH]; intros [| x xs] Hlen Hzero;
    try discriminate; [reflexivity |].
  cbn [map masked_pick]. injection Hlen as Hlen.
  rewrite (Hzero s) by left.
  change (byte (1 - byte 0) =? 0) with false. cbn iota. f_equal.
  apply IH; [exact Hlen |]. intros s' Hs'. apply Hzero. now right.
Qed.

(** A byte of the indicator other than 0 and 1 leaves a byte other than
    0 and 1 in [1 - indicator.byte()]. *)
Lemma indicator_mask_refused (indicator : list Z) (s : Z) :
  s ∈ indicator -> 0 <= s < 256 -> s <> 0 -> s <> 1 ->
  binary_mask (map (fun s => byte (1 - byte s)) indicator) = false.
Proof.
  intros Hin Hs H0 H1. unfold binary_mask.
  apply Bool.not_true_is_false. intros Hall. rewrite forallb_forall in Hall.
  assert (Hmask : In (byte (1 - byte s))
                     (map (fun s => byte (1 - byte s)) indicator)).
  { apply (in_map (fun s => byte (1 - byte s))), list_elem_of_In, Hin. }
  apply Hall in Hmask. unfold byte in Hmask.
  rewrite (Z.mod_small s) in Hmask by lia.
  assert (Hm : (1 - s) mod 256 = 257 - s).
  { symmetry. apply (Z.mod_unique_pos _ _ (-1)); lia. }
  rewrite Hm in Hmask.
  apply Bool.orb_true_iff in Hmask as [Hmask | Hmask];
    apply Z.eqb_eq in Hmask; lia.
Qed.

(** The row of a document under an indicator with one entry per column:
    the row without indicator, selected by [1 - indicator.byte()]. *)
Lemma bow_vector_stopwords (vocab_size : Z) (indicator : list Z)
    (document doc_mask : list Z) (row : list R) :
  bow_vector vocab_size None document doc_mask = Ok row ->
  length row = length indicator ->
  bow_vector vocab_size (Some indicator) document doc_mask
  = select_by_mask row (map (fun s => byte (1 - byte s)) indicator).
Proof.
  intros Hrow Hlen. unfold bow_vector in Hrow |- *.
  destruct (masked_select document (map byte doc_mask)) as [sel | |];
    cbn [obind] in Hrow |- *; try discriminate.
  destruct (bincount sel vocab_size) as [counts | |];
    cbn [obind] in Hrow |- *; try discriminate.
  injection Hrow as <-. unfold masked_select.
  replace (length (map IZR counts)
           =? length (map (fun s => byte (1 - byte s)) indicator))%nat
    with true; [reflexivity |].
  symmetry. apply Nat.eqb_eq. rewrite (length_map _ indicator). exact Hlen.
Qed.

End BowGeneral.

Section BowLoops.
#[local] Open Scope Z_scope.

Lemma omap_ext_in {A B : Type} (f g : A -> outcome B) (xs : list A) :
  (forall x, x ∈ xs -> f x = g x) -> omap f xs = omap g xs.
Proof.
  induction xs as [| x xs IH]; intros Hfg; [reflexivity |].
  cbn [omap]. rewrite (Hfg x) by left. rewrite IH; [reflexivity |].
  intros y Hy. apply Hfg. now right.
Qed.

Lemma bow_loop_elements (tokens : list (list Z)) (x : list Z * list Z) :
  x ∈ zip tokens (get_text_field_mask tokens) <->
  exists document,
    document ∈ tokens /\
    x = (document, map (fun t => if t =? 0 then 0 else 1) document).
Proof.
  unfold get_text_field_mask. rewrite zip_with_mask, list_elem_of_fmap.
  split; intros [document [H1 H2]]; exists document; split; assumption.
Qed.

End BowLoops.

(** X1: token indices beyond the vocabulary are not refused: when the
    documents of the batch ask for one width (their largest index outside
    the padding plus one, or the vocabulary size), every row has that
    width and every entry below it, also beyond the vocabulary, is the
    number of unmasked occurrences of its index. *)
Theorem compute_bow_beyond_vocabulary
    (tokens : list (list Z)) (vocab_size : Z) (w : nat) :
  tokens <> [] ->
  (0 <= vocab_size)%Z ->
  (forall document t, document ∈ tokens -> t ∈ document -> (0 <= t)%Z) ->
  (forall document, document ∈ tokens -> bow_width vocab_size document = w) ->
  exists bow,
    compute_bow tokens vocab_size None = Ok bow /\
    Forall2 (fun document row =>
               length row = w /\
               forall v, (0 <= v)%Z -> Z.to_nat v < w ->
                 row !! Z.to_nat v
                 = Some (INR (unmasked_occurrences v document
                                (map (fun t => if (t =? 0)%Z then 0%Z else 1%Z)
                                     document))))
            tokens bow.
Proof.
  intros Hne Hsize Hnonneg Hwidth.
  apply (compute_bow_rows
           (fun document row =>
              forall v, (0 <= v)%Z -> Z.to_nat v < w ->
                row !! Z.to_nat v
                = Some (INR (unmasked_occurrences v document
                               (map (fun t => if (t =? 0)%Z then 0%Z else 1%Z)
                                    document))))
           w tokens vocab_size None Hne).
  intros document Hdoc.
  destruct (bow_vector_nonnegative vocab_size document Hsize
              (fun t Ht => Hnonneg document t Hdoc Ht))
    as (row & Hrow & Hlen & _ & Hcount).
  rewrite (Hwidth document Hdoc) in Hlen, Hcount.
  exists row. split; [exact Hrow |]. split; [exact Hlen | exact Hcount].
Qed.

Lemma compute_bow_beyond_vocabulary_witness :
  exists bow,
    compute_bow [[5; 1]; [5; 0]]%Z 3 None = Ok bow /\
    Forall2 (fun document row =>
               length row = 6 /\
               forall v, (0 <= v)%Z -> Z.to_nat v < 6 ->
                 row !! Z.to_nat v
                 = Some (INR (unmasked_occurrences v document
                                (map (fun t => if (t =? 0)%Z then 0%Z else 1%Z)
                                     document))))
            [[5; 1]; [5; 0]]%Z bow.
Proof.
  apply (compute_bow_beyond_vocabulary [[5; 1]; [5; 0]]%Z 3 6).
  - discriminate.
  - lia.
  - intros document t Hdoc Ht.
    assert (Hall : Forall (Forall (fun t => (0 <= t)%Z)) [[5; 1]; [5; 0]]%Z)
      by (repeat constructor; lia).
    rewrite Forall_forall in Hall. specialize (Hall document Hdoc).
    rewrite Forall_forall in Hall. exact (Hall t Ht).
  - intros document Hdoc.
    assert (Hall : Forall (fun d => bow_width 3 d = 6) [[5; 1]; [5; 0]]%Z)
      by (repeat constructor).
    rewrite Forall_forall in Hall. exact (Hall document Hdoc).
Defined.

(** X2: the padding is never counted: entry 0 of every row is 0, and the
    entries of a row add up to the number of tokens of its document that
    are not padding. *)
Theorem compute_bow_padding_excluded
    (tokens : list (list Z)) (vocab_size : Z) (w : nat) :
  tokens <> [] ->
  (0 <= vocab_size)%Z ->
  (forall document t, document ∈ tokens -> t ∈ document -> (0 <= t)%Z) ->
  (forall document, document ∈ tokens -> bow_width vocab_size document = w) ->
  0 < w ->
  exists bow,
    compute_bow tokens vocab_size None = Ok bow /\
    Forall2 (fun document row =>
               length row = w /\
               (row !! 0 = Some 0%R /\
                sum_R row
                = INR (length (List.filter (fun t => negb (t =? 0)%Z) document))))
            tokens bow.
Proof.
  intros Hne Hsize Hnonneg Hwidth Hw.
  apply (compute_bow_rows
           (fun document row =>
              row !! 0 = Some 0%R /\
              sum_R row
              = INR (length (List.filter (fun t => negb (t =? 0)%Z) document)))
           w tokens vocab_size None Hne).
  intros document Hdoc.
  destruct (bow_vector_nonnegative vocab_size document Hsize
              (fun t Ht => Hnonneg document t Hdoc Ht))
    as (row & Hrow & Hlen & Hsum & Hcount).
  rewrite (Hwidth document Hdoc) in Hlen, Hcount.
  exists row. split; [exact Hrow |]. split; [exact Hlen |].
  split; [| exact Hsum].
  change (row !! 0) with (row !! Z.to_nat 0).
  rewrite (Hcount 0%Z) by (simpl; lia).
  rewrite unmasked_occurrences_padding, no_padding_among_selected. reflexivity.
Qed.

Lemma compute_bow_padding_excluded_witness :
  exists bow,
    compute_bow [[1; 2; 2; 0]; [3; 0; 0; 0]]%Z 4 None = Ok bow /\
    Forall2 (fun document row =>
               length row = 4 /\
               (row !! 0 = Some 0%R /\
                sum_R row
                = INR (length (List.filter (fun t => negb (t =? 0)%Z) document))))
            [[1; 2; 2; 0]; [3; 0; 0; 0]]%Z bow.
Proof.
  apply (compute_bow_padding_excluded [[1; 2; 2; 0]; [3; 0; 0; 0]]%Z 4 4).
  - discriminate.
  - lia.
  - intros document t Hdoc Ht.
    assert (Hall : Forall (Forall (fun t => (0 <= t)%Z))
                     [[1; 2; 2; 0]; [3; 0; 0; 0]]%Z)
      by (repeat constructor; lia).
    rewrite Forall_forall in Hall. specialize (Hall document Hdoc).
    rewrite Forall_forall in Hall. exact (Hall t Ht).
  - intros document Hdoc.
    assert (Hall : Forall (fun d => bow_width 4 d = 4)
                     [[1; 2; 2; 0]; [3; 0; 0; 0]]%Z)
      by (repeat constructor).
    rewrite Forall_forall in Hall. exact (Hall document Hdoc).
  - lia.
Defined.

(** X3: documents that ask for different widths cannot be stacked: the call
    raises [RuntimeError] when a document holds an index beyond the
    vocabulary that makes its row wider than the first one, or narrower. *)
Theorem compute_bow_ragged
    (document0 : list Z) (rest : list (list Z)) (vocab_size : Z)
    (document : list Z) :
  (0 <= vocab_size)%Z ->
  (forall d t, d ∈ document0 :: rest -> t ∈ d -> (0 <= t)%Z) ->
  document ∈ rest ->
  bow_width vocab_size document <> bow_width vocab_size document0 ->
  compute_bow (document0 :: rest) vocab_size None = Raise RuntimeError.
Proof.
  intros Hsize Hnonneg Hdoc Hwidth.
  destruct (omap_Forall2
              (fun x => bow_vector vocab_size None (fst x) (snd x))
              (fun x row => length row = bow_width vocab_size (fst x))
              (zip (document0 :: rest) (get_text_field_mask (document0 :: rest))))
    as [bow [Hbow HP]].
  { intros x Hx. apply bow_loop_elements in Hx as [d [Hd ->]].
    destruct (bow_vector_nonnegative vocab_size d Hsize
                (fun t Ht => Hnonneg d t Hd Ht)) as (row & Hrow & Hlen & _).
    exists row. split; [exact Hrow | exact Hlen]. }
  unfold compute_bow. rewrite Hbow. cbn [obind].
  unfold get_text_field_mask in HP. rewrite zip_with_mask in HP.
  apply Forall2_fmap_l in HP. cbn [fst] in HP.
  inversion HP as [| d0 row0 ds rows Hrow0 Hrows]; subst.
  apply list_elem_of_lookup in Hdoc as [j Hj].
  destruct (Forall2_lookup_l _ _ _ _ _ Hrows Hj) as (row & Hrow & Hlen).
  apply (cat_rows_mismatch row0 row rows).
  - apply list_elem_of_lookup. eauto.
  - cbn in Hrow0, Hlen. rewrite Hrow0, Hlen. exact Hwidth.
Qed.

Lemma compute_bow_ragged_witness :
  compute_bow [[1; 2]; [7; 1]]%Z 3 None = Raise RuntimeError.
Proof.
  apply (compute_bow_ragged [1; 2]%Z [[7; 1]]%Z 3 [7; 1]%Z).
  - lia.
  - intros d t Hd Ht.
    assert (Hall : Forall (Forall (fun t => (0 <= t)%Z)) [[1; 2]; [7; 1]]%Z)
      by (repeat constructor; lia).
    rewrite Forall_forall in Hall. specialize (Hall d Hd).
    rewrite Forall_forall in Hall. exact (Hall t Ht).
  - left.
  - discriminate.
Defined.

(** X4: a negative token index anywhere in the batch makes the call raise
    [RuntimeError], with or without a stop-word indicator. *)
Theorem compute_bow_negative_index
    (tokens : list (list Z)) (vocab_size : Z)
    (stopword_indicator : option (list Z)) (document : list Z) (t : Z) :
  document ∈ tokens ->
  t ∈ document ->
  (t < 0)%Z ->
  compute_bow tokens vocab_size stopword_indicator = Raise RuntimeError.
Proof.
  intros Hdoc Ht Hneg. unfold compute_bow.
  rewrite (omap_raise _ RuntimeError); [reflexivity | |].
  - intros x _. apply bow_vector_outcomes.
  - exists (document, map (fun t => if (t =? 0)%Z then 0%Z else 1%Z) document).
    split; [apply bow_loop_elements; eauto |].
    cbn [fst snd]. unfold bow_vector. rewrite padding_select. cbn [obind].
    rewrite (bincount_negative_entry _ vocab_size t); [reflexivity | | exact Hneg].
    apply list_elem_of_In, filter_In. split; [apply list_elem_of_In, Ht |].
    apply Bool.negb_true_iff, Z.eqb_neq. lia.
Qed.

Lemma compute_bow_negative_index_witness :
  compute_bow [[1; 2]; [1; -1]]%Z 3 (Some [0; 1; 0]%Z) = Raise RuntimeError.
Proof.
  apply (compute_bow_negative_index [[1; 2]; [1; -1]]%Z 3 (Some [0; 1; 0]%Z)
           [1; -1]%Z (-1)%Z).
  - right. left.
  - right. left.
  - lia.
Defined.

(** X5: a stop-word indicator of byte values with one entry per column is
    accepted exactly when it holds 0 and 1 only: then every row keeps one
    entry for each 0 of the indicator; a byte from 2 to 255 leaves a byte
    other than 0 and 1 in the mask [1 - indicator.byte()], and the call
    raises [RuntimeError]. *)
Theorem compute_bow_stopword_width
    (tokens : list (list Z)) (vocab_size : Z) (indicator : list Z) :
  tokens <> [] ->
  (0 <= vocab_size)%Z ->
  (forall document t, document ∈ tokens -> t ∈ document -> (0 <= t)%Z) ->
  (forall document, document ∈ tokens ->
     bow_width vocab_size document = length indicator) ->
  (forall s, s ∈ indicator -> (0 <= s < 256)%Z) ->
  ((forall s, s ∈ indicator -> s = 0%Z \/ s = 1%Z) ->
   exists bow,
     compute_bow tokens vocab_size (Some indicator) = Ok bow /\
     length bow = length tokens /\
     forall row, row ∈ bow ->
       length row = length (List.filter (fun s => (s =? 0)%Z) indicator)) /\
  ((exists s, s ∈ indicator /\ s <> 0%Z /\ s <> 1%Z) ->
   compute_bow tokens vocab_size (Some indicator) = Raise RuntimeError).
Proof.
  intros Hne Hsize Hnonneg Hwidth Hbytes. split.
  - intros Hbin.
    destruct (compute_bow_rows (fun _ _ => True)
                (length (List.filter (fun s => (s =? 0)%Z) indicator))
                tokens vocab_size (Some indicator) Hne)
      as (bow & Hbow & HP).
    { intros document Hdoc.
      destruct (bow_vector_nonnegative vocab_size document Hsize
                  (fun t Ht => Hnonneg document t Hdoc Ht))
        as (row & Hrow & Hlen & _).
      rewrite (Hwidth document Hdoc) in Hlen.
      rewrite (bow_vector_stopwords _ _ _ _ row Hrow Hlen).
      unfold select_by_mask. rewrite (indicator_mask_binary _ Hbin).
      eexists. split; [reflexivity |].
      split; [apply masked_pick_kept; assumption | exact I]. }
    exists bow. split; [exact Hbow |].
    split; [symmetry; apply (Forall2_length _ _ _ HP) |].
    pose proof (Forall2_right _ _ _ _ (fun x y Hxy => proj1 Hxy) HP) as Hall.
    rewrite Forall_forall in Hall. exact Hall.
  - intros (s & Hs & Hs0 & Hs1).
    destruct tokens as [| document rest]; [congruence |].
    assert (Hdoc : document ∈ document :: rest) by left.
    unfold compute_bow.
    rewrite (omap_raise _ RuntimeError); [reflexivity | |].
    + intros x _. apply bow_vector_outcomes.
    + exists (document, map (fun t => if (t =? 0)%Z then 0%Z else 1%Z) document).
      split; [apply bow_loop_elements; eauto |]. cbn [fst snd].
      destruct (bow_vector_nonnegative vocab_size document Hsize
                  (fun t Ht => Hnonneg document t Hdoc Ht))
        as (row & Hrow & Hlen & _).
      rewrite (Hwidth document Hdoc) in Hlen.
      rewrite (bow_vector_stopwords _ _ _ _ row Hrow Hlen).
      unfold select_by_mask.
      rewrite (indicator_mask_refused indicator s Hs (Hbytes s Hs) Hs0 Hs1).
      reflexivity.
Qed.

Lemma compute_bow_stopword_width_witness :
  (exists bow,
     compute_bow [[1; 2; 2]]%Z 3 (Some [0; 1; 0]%Z) = Ok bow /\
     length bow = 1 /\
     forall row, row ∈ bow -> length row = 2) /\
  compute_bow [[1; 2; 2]]%Z 3 (Some [0; 1; 2]%Z) = Raise RuntimeError.
Proof.
  assert (Htokens : forall document t,
            document ∈ [[1; 2; 2]]%Z -> t ∈ document -> (0 <= t)%Z).
  { intros document t Hdoc Ht.
    assert (Hall : Forall (Forall (fun t => (0 <= t)%Z)) [[1; 2; 2]]%Z)
      by (repeat constructor; lia).
    rewrite Forall_forall in Hall. specialize (Hall document Hdoc).
    rewrite Forall_forall in Hall. exact (Hall t Ht). }
  split.
  - apply (compute_bow_stopword_width [[1; 2; 2]]%Z 3 [0; 1; 0]%Z).
    + discriminate.
    + lia.
    + exact Htokens.
    + intros document Hdoc. apply list_elem_of_singleton in Hdoc as ->.
      reflexivity.
    + intros s Hs.
      assert (Hall : Forall (fun s => (0 <= s < 256)%Z) [0; 1; 0]%Z)
        by (repeat constructor; lia).
      rewrite Forall_forall in Hall. exact (Hall s Hs).
    + intros s Hs.
      assert (Hall : Forall (fun s => s = 0%Z \/ s = 1%Z) [0; 1; 0]%Z)
        by (repeat constructor; lia).
      rewrite Forall_forall in Hall. exact (Hall s Hs).
  - apply (compute_bow_stopword_width [[1; 2; 2]]%Z 3 [0; 1; 2]%Z).
    + discriminate.
    + lia.
    + exact Htokens.
    + intros document Hdoc. apply list_elem_of_singleton in Hdoc as ->.
      reflexivity.
    + intros s Hs.
      assert (Hall : Forall (fun s => (0 <= s < 256)%Z) [0; 1; 2]%Z)
        by (repeat constructor; lia).
      rewrite Forall_forall in Hall. exact (Hall s Hs).
    + exists 2%Z. split; [right; right; left | split; discriminate].
Defined.

(** X6: an indicator that marks no stop word, all zeros with one entry per
    column, changes nothing: the call returns what it returns without an
    indicator. *)
Theorem compute_bow_no_stopword
    (tokens : list (list Z)) (vocab_size : Z) (indicator : list Z) :
  (0 <= vocab_size)%Z ->
  (forall document t, document ∈ tokens -> t ∈ document -> (0 <= t)%Z) ->
  (forall document, document ∈ tokens ->
     bow_width vocab_size document = length indicator) ->
  (forall s, s ∈ indicator -> s = 0%Z) ->
  compute_bow tokens vocab_size (Some indicator)
  = compute_bow tokens vocab_size None.
Proof.
  intros Hsize Hnonneg Hwidth Hzero. unfold compute_bow. f_equal.
  apply omap_ext_in. intros x Hx.
  apply bow_loop_elements in Hx as [document [Hdoc ->]]. cbn [fst snd].
  destruct (bow_vector_nonnegative vocab_size document Hsize
              (fun t Ht => Hnonneg document t Hdoc Ht))
    as (row & Hrow & Hlen & _).
  rewrite (Hwidth document Hdoc) in Hlen.
  rewrite (bow_vector_stopwords _ _ _ _ row Hrow Hlen), Hrow.
  unfold select_by_mask.
  rewrite indicator_mask_binary by (intros s Hs; left; apply Hzero, Hs).
  f_equal. apply masked_pick_all; assumption.
Qed.

Lemma compute_bow_no_stopword_witness :
  compute_bow [[1; 2; 2]; [3; 0; 0]]%Z 4 (Some [0; 0; 0; 0]%Z)
  = compute_bow [[1; 2; 2]; [3; 0; 0]]%Z 4 None.
Proof.
  apply (compute_bow_no_stopword [[1; 2; 2]; [3; 0; 0]]%Z 4 [0; 0; 0; 0]%Z).
  - lia.
  - intros document t Hdoc Ht.
    assert (Hall : Forall (Forall (fun t => (0 <= t)%Z)) [[1; 2; 2]; [3; 0; 0]]%Z)
      by (repeat constructor; lia).
    rewrite Forall_forall in Hall. specialize (Hall document Hdoc).
    rewrite Forall_forall in Hall. exact (Hall t Ht).
  - intros document Hdoc.
    assert (Hall : Forall (fun d => bow_width 4 d = 4) [[1; 2; 2]; [3; 0; 0]]%Z)
      by (repeat constructor).
    rewrite Forall_forall in Hall. exact (Hall document Hdoc).
  - intros s Hs.
    assert (Hall : Forall (fun s => s = 0%Z) [0; 0; 0; 0]%Z)
      by (repeat constructor).
    rewrite Forall_forall in Hall. exact (Hall s Hs).
Defined.
